(** * Projectile-motion simulator: a shallow embedding and its properties

    The program is the multiple-shot cannonball animation built from
    [ch10_projectile.py] (the physics class [Projectile]) and
    [main_animation.py] (the classes [Launcher], [ShotTracker] and
    [ProjectileApp]).

    Python floats are idealised as real numbers: every arithmetic
    operation of the source is the exact operation on [R].  Rounding
    error of the binary64 format is therefore outside this development;
    what is checked is the structure of the formulas, the control flow
    of the driver and the exact-arithmetic consequences of both.  The
    one exception is the aim of the launcher, which module [Binary64]
    embeds a second time with binary64 operations, to tell what the
    program stores from what exact arithmetic gives. *)

From Stdlib Require Import Reals Lra Lia List String ZArith Bool QArith Qreals.
From Stdlib Require PrimFloat.
Import ListNotations.
Open Scope string_scope.
Open Scope list_scope.
Open Scope R_scope.

(** ** The fragment of Python the program relies on *)

(** [math.radians] and [math.degrees]. *)
Definition radians (x : R) : R := x * (PI / 180).
Definition degrees (x : R) : R := x * (180 / PI).

(** Comparisons of floats, as booleans. *)
Definition Rltb (x y : R) : bool := if Rlt_dec x y then true else false.
Definition Rleb (x y : R) : bool := if Rle_dec x y then true else false.

(** [round(x, 1)]: the closest multiple of one tenth, a tie going to the
    even one. *)
Definition round_half_even (r : R) : Z :=
  let f := Int_part r in
  let d := frac_part r in
  if Rlt_dec d (1 / 2) then f
  else if Rlt_dec (1 / 2) d then (f + 1)%Z
  else if Z.even f then f else (f + 1)%Z.

Definition round1 (x : R) : R := IZR (round_half_even (x * 10)) / 10.

(** The driver's display variables hold either a string or a float. *)
Inductive pyval : Type :=
| PStr (s : string)
| PFloat (r : R).

(** [v != s] for a string literal [s]: a float never equals a string. *)
Definition py_ne_str (v : pyval) (s : string) : bool :=
  match v with
  | PStr t => negb (String.eqb t s)
  | PFloat _ => true
  end.

(** [v <= r] for a float [r]: comparing a string with a float raises
    [TypeError], rendered as [None]. *)
Definition py_le (v : pyval) (r : R) : option bool :=
  match v with
  | PStr _ => None
  | PFloat a => Some (Rleb a r)
  end.

(** ** The graphics objects the program draws

    Only what the program reads back or what a property talks about is
    kept: where an object sits, what it displays and whether it is on
    the window.  [undraw] of an object that is not drawn does nothing. *)

Record Point : Type := mkPoint { px : R; py : R }.

Record Circle : Type := mkCircle {
  center : Point;
  radius : R;
  fill : string;
  outline : string;
  circle_drawn : bool
}.

Record Text : Type := mkText {
  anchor : Point;
  text : pyval;
  text_color : string;
  text_drawn : bool
}.

Record Line : Type := mkLine {
  p1 : Point;
  p2 : Point;
  arrow_opt : string;
  width : R;
  line_drawn : bool
}.

Definition move_point (dx dy : R) (p : Point) : Point :=
  mkPoint (px p + dx) (py p + dy).

Definition circle_move (dx dy : R) (c : Circle) : Circle :=
  mkCircle (move_point dx dy (center c)) (radius c) (fill c) (outline c)
           (circle_drawn c).

Definition circle_undraw (c : Circle) : Circle :=
  mkCircle (center c) (radius c) (fill c) (outline c) false.

Definition text_move (dx dy : R) (t : Text) : Text :=
  mkText (move_point dx dy (anchor t)) (text t) (text_color t) (text_drawn t).

Definition setText (v : pyval) (t : Text) : Text :=
  mkText (anchor t) v (text_color t) (text_drawn t).

Definition text_undraw (t : Text) : Text :=
  mkText (anchor t) (text t) (text_color t) false.

(** ** [ch10_projectile.py]: class [Projectile] *)

Module Projectile.

(** The attribute [vel] exists only once [getVel] has been called. *)
Record t : Type := mk {
  xpos : R;
  ypos : R;
  xvel : R;
  yvel : R;
  vel : option R
}.

Definition init (angle velocity height : R) : t :=
  let theta := radians angle in
  mk 0 height (velocity * cos theta) (velocity * sin theta) None.

Definition update (time : R) (self : t) : t :=
  let xpos' := xpos self + time * xvel self in
  let yvel1 := yvel self - 9.8 * time in
  let ypos' := ypos self + time * (yvel self + yvel1) / 2 in
  mk xpos' ypos' (xvel self) yvel1 (vel self).

Definition getY (self : t) : R := ypos self.

Definition getX (self : t) : R := xpos self.

(** [getVel] stores the speed in [self.vel] and returns it. *)
Definition getVel (self : t) : R * t :=
  let v := sqrt ((xvel self) ^ 2 + (yvel self) ^ 2) in
  (v, mk (xpos self) (ypos self) (xvel self) (yvel self) (Some v)).

(** A run of [update] calls, one per time step of the list. *)
Definition updates (times : list R) (self : t) : t :=
  fold_left (fun p time => update time p) times self.

End Projectile.

(** ** [main_animation.py]: class [ShotTracker] *)

Module ShotTracker.

(** [oid] is the identity of the Python object: two trackers are the
    same shot exactly when they carry the same [oid].  The window
    argument [win] of the source is not represented; being drawn is a
    flag of each graphics object. *)
Record t : Type := mk {
  oid : nat;
  proj : Projectile.t;
  marker : Circle;
  statX : Text;
  statXval : Text;
  statY : Text;
  statYval : Text;
  statV : Text;
  statVval : Text
}.

Definition init (id : nat) (angle velocity height : R) : t :=
  let proj := Projectile.init angle velocity height in
  let marker := mkCircle (mkPoint 0 height) 3 "red" "red" true in
  let lbl (dx dy : R) (s : string) :=
    mkText (mkPoint (Projectile.getX proj + dx) (Projectile.getY proj + dy))
           (PStr s) "black" true in
  mk id proj marker
     (lbl 0 20 "x (m):") (lbl 15 20 "")
     (lbl 0 15 "y (m):") (lbl 15 15 "")
     (lbl 0 10 "Speed (m/s):") (lbl 23 10 "").

Definition update (dt : R) (self : t) : t :=
  let proj1 := Projectile.update dt (proj self) in
  let c := center (marker self) in
  let dx := Projectile.getX proj1 - px c in
  let dy := Projectile.getY proj1 - py c in
  let marker1 := circle_move dx dy (marker self) in
  let statX1 := text_move dx dy (statX self) in
  let statXval1 :=
    text_move dx dy
      (setText (PFloat (round1 (Projectile.getX proj1))) (statXval self)) in
  let statY1 := text_move dx dy (statY self) in
  let statYval1 := text_move dx dy (statYval self) in
  let statV1 := text_move dx dy (statV self) in
  let statVval1 := text_move dx dy (statVval self) in
  let (v1, proj2) := Projectile.getVel proj1 in
  let statVval2 := setText (PFloat (round1 v1)) statVval1 in
  if Rleb 0 (Projectile.getY proj2) && Rleb (Projectile.getX proj2) 420 then
    let statYval2 :=
      setText (PFloat (round1 (Projectile.getY proj2))) statYval1 in
    let (v2, proj3) := Projectile.getVel proj2 in
    let statVval3 := setText (PFloat (round1 v2)) statVval2 in
    mk (oid self) proj3 marker1 statX1 statXval1 statY1 statYval2
       statV1 statVval3
  else
    mk (oid self) proj2 marker1
       (text_undraw statX1) (text_undraw statXval1)
       (text_undraw statY1) (text_undraw statYval1)
       (text_undraw statV1) (text_undraw statVval2).

Definition getX (self : t) : R := Projectile.getX (proj self).

Definition getY (self : t) : R := Projectile.getY (proj self).

Definition getVel (self : t) : R * t :=
  let (v, proj1) := Projectile.getVel (proj self) in
  (v, mk (oid self) proj1 (marker self) (statX self) (statXval self)
         (statY self) (statYval self) (statV self) (statVval self)).

Definition undraw (self : t) : t :=
  mk (oid self) (proj self) (circle_undraw (marker self))
     (statX self) (statXval self) (statY self) (statYval self)
     (statV self) (statVval self).

End ShotTracker.

(** ** [main_animation.py]: class [Launcher] *)

Module Launcher.

(** The red base circle that [__init__] draws is never read again and
    is left out, as is the window. *)
Record t : Type := mk {
  angle : R;
  vel : R;
  arrow : Line
}.

(** The arrow on display is replaced: the old one is undrawn and
    dropped, the new one runs from the origin to the tip of the
    velocity vector. *)
Definition redraw (self : t) : t :=
  let pt2 := mkPoint (vel self * cos (angle self))
                     (vel self * sin (angle self)) in
  mk (angle self) (vel self) (mkLine (mkPoint 0 0) pt2 "last" 3 true).

Definition init : t :=
  redraw (mk (radians 45) 40 (mkLine (mkPoint 0 0) (mkPoint 0 0) "none" 1 true)).

Definition adjAngle (amt : R) (self : t) : t :=
  redraw (mk (angle self + radians amt) (vel self) (arrow self)).

Definition adjVel (amt : R) (self : t) : t :=
  redraw (mk (angle self) (vel self + amt) (arrow self)).

(** [id] is the identity of the tracker object that [fire] creates. *)
Definition fire (id : nat) (self : t) : ShotTracker.t :=
  ShotTracker.init id (degrees (angle self)) (vel self) 0.

(** A run of [adjAngle] calls, one per amount of the list. *)
Definition adjAngles (amts : list R) (self : t) : t :=
  fold_left (fun l amt => adjAngle amt l) amts self.

End Launcher.

(** ** [main_animation.py]: class [ProjectileApp] *)

Module ProjectileApp.

(** The window, the ground line and the axis labels that [__init__]
    draws are never read again and are left out. *)
Record t : Type := mk {
  launcher : Launcher.t;
  initAngle : Text;
  initVel : Text;
  shots : list ShotTracker.t
}.

Definition init : t :=
  let launcher := Launcher.init in
  mk launcher
     (mkText (mkPoint 45 300)
             (PFloat (Launcher.angle launcher * (180 / PI))) "black" true)
     (mkText (mkPoint 45 285) (PFloat (Launcher.vel launcher)) "black" true)
     [].

(** The local variables of [updateShots]. *)
Record locals : Type := mkLocals {
  alive : list ShotTracker.t;
  x : pyval;
  y : pyval;
  v : pyval
}.

(** One pass through the body of the [for] loop.  Besides the new
    local variables it gives the tracker object as the body leaves
    it, whether or not [alive] still refers to it. *)
Definition visit (dt : R) (vars : locals) (shot : ShotTracker.t)
  : locals * ShotTracker.t :=
  let shot1 := ShotTracker.update dt shot in
  let x1 := PFloat (round1 (ShotTracker.getX shot1)) in
  let (s, shot2) := ShotTracker.getVel shot1 in
  let v1 := PFloat (round1 s) in
  if Rltb 0 (ShotTracker.getY shot2) && Rltb (ShotTracker.getX shot2) 420
  then
    (mkLocals (alive vars ++ [shot2]) x1
              (PFloat (round1 (ShotTracker.getY shot2))) v1,
     shot2)
  else if Rltb 0 (ShotTracker.getY shot2)
          && Rltb 420 (ShotTracker.getX shot2)
  then
    (mkLocals (alive vars) (PStr "N/A (>420)") (PFloat 0) (PStr "N/A"),
     ShotTracker.undraw shot2)
  else
    (mkLocals (alive vars) x1 (PFloat 0) v1, ShotTracker.undraw shot2).

Definition loop (dt : R) (vars : locals) (l : list ShotTracker.t) : locals :=
  fold_left (fun vars shot => fst (visit dt vars shot)) l vars.

(** The local variables as the loop starts: [alive = []] and [x], [y],
    [v] the empty string. *)
Definition initial_locals : locals :=
  mkLocals [] (PStr "") (PStr "") (PStr "").

Definition updateShots (dt : R) (self : t) : (pyval * pyval * pyval) * t :=
  let vars := loop dt initial_locals (shots self) in
  ((x vars, y vars, v vars),
   mk (launcher self) (initAngle self) (initVel self) (alive vars)).

(** The state of [run]: the application, the two texts of the
    last-shot summary (local variables of [run]) and the identity the
    next tracker object will get. *)
Record run_state : Type := mkRun {
  app : t;
  finPos : Text;
  finVel : Text;
  fresh : nat
}.

Definition run_init (self : t) : run_state :=
  mkRun self
        (mkText (mkPoint 60 (-15)) (PStr "") "green" true)
        (mkText (mkPoint 165 (-15)) (PStr "") "blue" true)
        0.

(** The test [x != "" and y <= 0.0]; [and] does not evaluate its
    second operand when the first is false. *)
Definition landed_test (x y : pyval) : option bool :=
  if py_ne_str x "" then py_le y 0 else Some false.

(** The key handling of one turn of the loop, for a key other than
    [q] and [Q]. *)
Definition handle_key (key : string) (self : t) (id : nat) : t * nat :=
  let angle_text (l : Launcher.t) :=
    setText (PFloat (round1 (Launcher.angle l * (180 / PI)))) (initAngle self) in
  let vel_text (l : Launcher.t) :=
    setText (PFloat (round1 (Launcher.vel l))) (initVel self) in
  if String.eqb key "Up" then
    let l := Launcher.adjAngle 2.5 (launcher self) in
    (mk l (angle_text l) (initVel self) (shots self), id)
  else if String.eqb key "Down" then
    let l := Launcher.adjAngle (-2.5) (launcher self) in
    (mk l (angle_text l) (initVel self) (shots self), id)
  else if String.eqb key "Right" then
    let l := Launcher.adjVel 1 (launcher self) in
    (mk l (initAngle self) (vel_text l) (shots self), id)
  else if String.eqb key "Left" then
    let l := Launcher.adjVel (-1) (launcher self) in
    (mk l (initAngle self) (vel_text l) (shots self), id)
  else if String.eqb key "f" then
    (mk (launcher self) (initAngle self) (initVel self)
        (shots self ++ [Launcher.fire id (launcher self)]),
     S id)
  else (self, id).

(** One turn of the [while True] loop with [key] the result of
    [checkKey].  The boolean tells whether the loop goes on ([false]
    after [break]); [None] is an uncaught exception. *)
Definition frame (key : string) (st : run_state) : option (bool * run_state) :=
  let '((x, y, v), app1) := updateShots (1 / 120) (app st) in
  match landed_test x y with
  | None => None
  | Some c =>
      let finPos1 := if c then setText x (finPos st) else finPos st in
      let finVel1 := if c then setText v (finVel st) else finVel st in
      if String.eqb key "q" || String.eqb key "Q" then
        Some (false, mkRun app1 finPos1 finVel1 (fresh st))
      else
        let (app2, id) := handle_key key app1 (fresh st) in
        Some (true, mkRun app2 finPos1 finVel1 id)
  end.

(** The loop driven by the keys that successive [checkKey] calls
    return; it stops at [break] or when the keys run out. *)
Fixpoint frames (keys : list string) (st : run_state)
  : option (bool * run_state) :=
  match keys with
  | [] => Some (true, st)
  | key :: keys' =>
      match frame key st with
      | None => None
      | Some (false, st') => Some (false, st')
      | Some (true, st') => frames keys' st'
      end
  end.

Definition run (keys : list string) (self : t) : option (bool * run_state) :=
  frames keys (run_init self).

End ProjectileApp.


(** ** [main_animation.py]: the aim of the [Launcher] in binary64

    The fields [angle] and [vel] of [Launcher] with the arithmetic of
    the program: Python floats are binary64 numbers, [math.pi] is the
    binary64 number nearest to pi, and [math.radians] and
    [math.degrees] multiply by the constants [pi / 180] and
    [180 / pi].  The arrow is left out: its end point needs [cos] and
    [sin], and [redraw] touches neither [angle] nor [vel]. *)

Module Binary64.

Import PrimFloat.

Definition pi : float := 0x1.921fb54442d18p+1%float.

Definition radians (x : float) : float := (x * (pi / 180))%float.

Definition degrees (x : float) : float := (x * (180 / pi))%float.

Record t : Type := mk {
  angle : float;
  vel : float
}.

Definition init : t := mk (radians 45) 40.

Definition adjAngle (amt : float) (self : t) : t :=
  mk (angle self + radians amt)%float (vel self).

Definition adjVel (amt : float) (self : t) : t :=
  mk (angle self) (vel self + amt)%float.

(** A run of [adjAngle] calls, one per amount of the list. *)
Definition adjAngles (amts : list float) (self : t) : t :=
  fold_left (fun l amt => adjAngle amt l) amts self.

End Binary64.

(** ** Auxiliary notions used to state the properties *)

(** The sum of a list of amounts. *)
Definition Rsum (l : list R) : R := fold_right Rplus 0 l.

(** The identities of the trackers of a collection. *)
Definition oids (l : list ShotTracker.t) : list nat := map ShotTracker.oid l.

(** The tracker as the tests of the loop body of [updateShots] see it:
    advanced by [dt], its speed queried once. *)
Definition seen (dt : R) (shot : ShotTracker.t) : ShotTracker.t :=
  snd (ShotTracker.getVel (ShotTracker.update dt shot)).

(** The first test of the loop body: above ground and short of 420. *)
Definition in_flight (shot : ShotTracker.t) : bool :=
  Rltb 0 (ShotTracker.getY shot) && Rltb (ShotTracker.getX shot) 420.

(** The trackers of a run are well identified: no identity occurs
    twice and each one is older than the next one to be given out. *)
Definition well_identified (st : ProjectileApp.run_state) : Prop :=
  NoDup (oids (ProjectileApp.shots (ProjectileApp.app st)))
  /\ Forall (fun id => (id < ProjectileApp.fresh st)%nat)
            (oids (ProjectileApp.shots (ProjectileApp.app st))).

(** A tracker in mid-flight: projectile [p], marker and labels where
    [ShotTracker.update] keeps them relative to the projectile. *)
Definition tracker_at (id : nat) (p : Projectile.t) : ShotTracker.t :=
  let lbl (dx dy : R) (s : string) :=
    mkText (mkPoint (Projectile.xpos p + dx) (Projectile.ypos p + dy))
           (PStr s) "black" true in
  ShotTracker.mk id p
    (mkCircle (mkPoint (Projectile.xpos p) (Projectile.ypos p)) 3 "red" "red" true)
    (lbl 0 20 "x (m):") (lbl 15 20 "")
    (lbl 0 15 "y (m):") (lbl 15 15 "")
    (lbl 0 10 "Speed (m/s):") (lbl 23 10 "").

(** An application in the middle of a run with the given trackers in
    flight. *)
Definition app_with (l : list ShotTracker.t) : ProjectileApp.t :=
  ProjectileApp.mk (ProjectileApp.launcher ProjectileApp.init)
                   (ProjectileApp.initAngle ProjectileApp.init)
                   (ProjectileApp.initVel ProjectileApp.init) l.

Definition run_with (l : list ShotTracker.t) (next : nat)
  : ProjectileApp.run_state :=
  ProjectileApp.mkRun (app_with l)
                      (ProjectileApp.finPos (ProjectileApp.run_init ProjectileApp.init))
                      (ProjectileApp.finVel (ProjectileApp.run_init ProjectileApp.init))
                      next.

(** The motion of a projectile: everything but the cached speed. *)
Definition motion (p : Projectile.t) : R * R * R * R :=
  (Projectile.xpos p, Projectile.ypos p, Projectile.xvel p, Projectile.yvel p).

(** A session at the keyboard: six times [Up] (60 degrees), 61 times
    [Right] (101 m/s), two shots fired in consecutive turns, then 997
    turns without a key. *)
Definition two_shot_keys : list string :=
  repeat "Up" 6 ++ repeat "Right" 61 ++ ["f"; "f"] ++ repeat "" 997.

(** Sample trackers, a frame before the positions the properties talk
    about: the first reaches [x = 420] exactly at the next advance by
    1/120 s, the second passes 420 while high above ground, the third
    is in mid-flight well inside the window. *)
Definition shot_boundary : ShotTracker.t :=
  tracker_at 0 (Projectile.mk 419.5 100 60 0 None).

Definition shot_beyond : ShotTracker.t :=
  tracker_at 0 (Projectile.mk 419.9 100 60 (-20) None).

Definition shot_inside : ShotTracker.t :=
  tracker_at 1 (Projectile.mk 100 80 60 10 None).

(** ** Further notions, for the properties beyond the claims *)

(** Twice the mechanical energy per unit of mass: the square of the
    speed plus [2 * 9.8 * y]. *)
Definition energy (p : Projectile.t) : R :=
  (Projectile.xvel p) ^ 2 + (Projectile.yvel p) ^ 2
  + 2 * 9.8 * Projectile.ypos p.

(** A run of [ShotTracker.update] calls, one per time step of the
    list. *)
Definition tracker_updates (times : list R) (s : ShotTracker.t)
  : ShotTracker.t :=
  fold_left (fun s dt => ShotTracker.update dt s) times s.

(** The six overlay texts of a tracker, in the order [__init__]
    creates them, and where [__init__] puts them relative to the
    projectile. *)
Definition labels (s : ShotTracker.t) : list Text :=
  [ShotTracker.statX s; ShotTracker.statXval s;
   ShotTracker.statY s; ShotTracker.statYval s;
   ShotTracker.statV s; ShotTracker.statVval s].

Definition label_offsets : list (R * R) :=
  [(0, 20); (15, 20); (0, 15); (15, 15); (0, 10); (23, 10)].

(** The marker sits on the projectile and the labels sit at their
    offsets from it. *)
Definition in_formation (s : ShotTracker.t) : Prop :=
  center (ShotTracker.marker s)
  = mkPoint (ShotTracker.getX s) (ShotTracker.getY s)
  /\ map anchor (labels s)
     = map (fun o => mkPoint (ShotTracker.getX s + fst o)
                             (ShotTracker.getY s + snd o))
           label_offsets.

(** The marker and the six labels are on the window. *)
Definition all_drawn (s : ShotTracker.t) : Prop :=
  circle_drawn (ShotTracker.marker s) = true
  /\ Forall (fun t => text_drawn t = true) (labels s).


(** The two texts at the top left show the aim: the angle in degrees
    and the velocity, as they are or rounded to one decimal. *)
Definition display_current (a : ProjectileApp.t) : Prop :=
  let l := ProjectileApp.launcher a in
  (text (ProjectileApp.initAngle a) = PFloat (Launcher.angle l * (180 / PI))
   \/ text (ProjectileApp.initAngle a)
      = PFloat (round1 (Launcher.angle l * (180 / PI))))
  /\ (text (ProjectileApp.initVel a) = PFloat (Launcher.vel l)
      \/ text (ProjectileApp.initVel a) = PFloat (round1 (Launcher.vel l))).

(** The two ways a key changes the aim, and a run of them. *)
Inductive adjustment : Type :=
| AdjAngle (amt : R)
| AdjVel (amt : R).

Definition adjust (a : adjustment) (l : Launcher.t) : Launcher.t :=
  match a with
  | AdjAngle amt => Launcher.adjAngle amt l
  | AdjVel amt => Launcher.adjVel amt l
  end.

Definition adjusts (adjs : list adjustment) (l : Launcher.t) : Launcher.t :=
  fold_left (fun l a => adjust a l) adjs l.

Definition angle_total (adjs : list adjustment) : R :=
  Rsum (map (fun a => match a with AdjAngle amt => amt | AdjVel _ => 0 end)
            adjs).

Definition vel_total (adjs : list adjustment) : R :=
  Rsum (map (fun a => match a with AdjAngle _ => 0 | AdjVel amt => amt end)
            adjs).

(** How many times [key] occurs among the keys, as a real. *)
Definition presses (key : string) (keys : list string) : R :=
  INR (count_occ string_dec keys key).

(** The keys [run] reacts to. *)
Definition known_keys : list string :=
  ["q"; "Q"; "Up"; "Down"; "Right"; "Left"; "f"].

(** Two more sample trackers: one a frame before it is 0.03 m above
    ground, one a frame before it is below ground. *)
Definition shot_grazing : ShotTracker.t :=
  tracker_at 0 (Projectile.mk 100 0.04 60 (-1) None).

Definition shot_landing : ShotTracker.t :=
  tracker_at 0 (Projectile.mk 100 0.01 60 (-20) None).

(** * Properties of [Projectile] *)

(** The decimal constants of the source, as fractions. *)
Lemma gravity_fraction : 9.8 = 98 / 10.
Proof. lra. Qed.

Lemma half_gravity_fraction : 4.9 = 49 / 10.
Proof. lra. Qed.

Ltac decimals := rewrite ?gravity_fraction, ?half_gravity_fraction.

Section ProjectileFacts.

Import Projectile.

Lemma updates_cons (time : R) (times : list R) (p : t) :
  updates (time :: times) p = updates times (update time p).
Proof. reflexivity. Qed.

Lemma updates_app (ts1 ts2 : list R) (p : t) :
  updates (ts1 ++ ts2) p = updates ts2 (updates ts1 p).
Proof. unfold updates. apply fold_left_app. Qed.

(** One step in closed form: the trapezoidal step is the exact
    parabola over the step. *)
Lemma update_ypos_parabola (dt : R) (p : t) :
  ypos (update dt p) = ypos p + yvel p * dt - 4.9 * dt ^ 2.
Proof. unfold update; cbn [ypos yvel]. decimals. field. Qed.

Lemma getVel_init (angle velocity height : R) :
  fst (getVel (init angle velocity height)) = Rabs velocity.
Proof.
  unfold getVel, init; simpl.
  rewrite <- sqrt_Rsqr_abs. f_equal.
  generalize (sin2_cos2 (radians angle)). unfold Rsqr. intros H.
  replace (velocity * cos (radians angle) * (velocity * cos (radians angle) * 1)
           + velocity * sin (radians angle) * (velocity * sin (radians angle) * 1))
    with (velocity * velocity
          * (sin (radians angle) * sin (radians angle)
             + cos (radians angle) * cos (radians angle))) by ring.
  rewrite H. ring.
Qed.

(** C1.  One call [update(dt)] on any state gives
    [new_vy = vy - 9.8*dt], [new_y = y + dt*(vy + new_vy)/2] (the mean
    of the old and the new vertical velocity), [new_x = x + dt*vx], and
    changes nothing else: [xvel] and the cached [vel] are as before. *)
Theorem update_formula (dt : R) (p : t) :
  yvel (update dt p) = yvel p - 9.8 * dt
  /\ ypos (update dt p) = ypos p + dt * (yvel p + yvel (update dt p)) / 2
  /\ xpos (update dt p) = xpos p + dt * xvel p
  /\ xvel (update dt p) = xvel p
  /\ vel (update dt p) = vel p.
Proof. repeat split. Qed.

Lemma Q2R_inject_Z (z : Z) : Q2R (inject_Z z) = IZR z.
Proof. unfold Q2R, inject_Z. simpl. field. Qed.

(** C5.  From any state, [n] calls of [update(dt)] with total elapsed
    time [T = n*dt] leave [y = height + vy0*T - 4.9*T^2], in exact
    arithmetic.  [dt], the height and the velocity range over all
    reals; when they are rationals the height reached is the rational
    that the closed form gives in rational arithmetic. *)
Theorem updates_closed_form :
  (forall (dt : R) (n : nat) (p : t),
      let T := INR n * dt in
      ypos (updates (repeat dt n) p) = ypos p + yvel p * T - 4.9 * T ^ 2)
  /\ (forall (height vy0 dt : Q) (n : nat) (x0 vx : R) (c : option R),
        let T := (inject_Z (Z.of_nat n) * dt)%Q in
        ypos (updates (repeat (Q2R dt) n) (mk x0 (Q2R height) vx (Q2R vy0) c))
        = Q2R (height + vy0 * T - 4.9 * (T * T))%Q).
Proof.
  assert (H : forall (dt : R) (n : nat) (p : t),
             ypos (updates (repeat dt n) p)
             = ypos p + yvel p * (INR n * dt) - 4.9 * (INR n * dt) ^ 2).
  { intros dt n. induction n as [|n IH]; intros p.
    - simpl. lra.
    - change (repeat dt (S n)) with (dt :: repeat dt n).
      rewrite updates_cons, IH, update_ypos_parabola, S_INR.
      unfold update; cbn [ypos yvel]. decimals. field. }
  split; [exact H|].
  intros height vy0 dt n x0 vx c T. subst T. rewrite H. cbn [ypos yvel].
  rewrite Q2R_minus, Q2R_plus, !Q2R_mult, Q2R_inject_Z, INR_IZR_INZ.
  simpl pow. ring.
Qed.

(** C8.  Whatever the sequence of [update] calls, [xvel] keeps the
    value it has before them; for a projectile just constructed that is
    [velocity * cos(radians(angle))]. *)
Theorem updates_xvel_constant :
  (forall (times : list R) (p : t), xvel (updates times p) = xvel p)
  /\ (forall (times : list R) (angle velocity height : R),
        xvel (updates times (init angle velocity height))
        = velocity * cos (radians angle)).
Proof.
  assert (H : forall times p, xvel (updates times p) = xvel p).
  { induction times as [|time times IH]; intros p.
    - reflexivity.
    - rewrite updates_cons, IH. reflexivity. }
  split; [exact H|]. intros. rewrite H. reflexivity.
Qed.

End ProjectileFacts.

(** C4, as amended.  Right after construction the position is
    [(0, height)], the velocity is
    [(speed*cos(radians(angle)), speed*sin(radians(angle)))], and the
    speed query returns the absolute value of the input speed, which is
    the input speed itself whenever that is not negative. *)
Theorem init_state (angle speed height : R) :
  let p := Projectile.init angle speed height in
  Projectile.getX p = 0
  /\ Projectile.getY p = height
  /\ Projectile.xvel p = speed * cos (radians angle)
  /\ Projectile.yvel p = speed * sin (radians angle)
  /\ fst (Projectile.getVel p) = Rabs speed
  /\ (0 <= speed -> fst (Projectile.getVel p) = speed).
Proof.
  intros p. subst p. repeat split.
  - apply getVel_init.
  - intros H. rewrite getVel_init. apply Rabs_pos_eq. exact H.
Qed.

(** The default aim, 45 degrees and 40 m/s from the ground. *)
Lemma init_state_witness :
  0 <= 40 /\ fst (Projectile.getVel (Projectile.init 45 40 0)) = 40.
Proof.
  split; [lra|].
  apply (init_state 45 40 0). lra.
Defined.

(** C4 as first stated fails for a negative speed, which the launcher
    reaches after enough [Left] keys: a projectile built with angle 0
    and speed -1 reports the speed 1. *)
Lemma init_speed_counterexample :
  ~ (let p := Projectile.init 0 (-1) 0 in
     Projectile.getX p = 0
     /\ Projectile.getY p = 0
     /\ Projectile.xvel p = -1 * cos (radians 0)
     /\ Projectile.yvel p = -1 * sin (radians 0)
     /\ fst (Projectile.getVel p) = -1).
Proof.
  intros (_ & _ & _ & _ & H).
  rewrite getVel_init in H.
  pose proof (Rabs_pos (-1)). lra.
Qed.

(** * Properties of [Launcher] *)

Lemma radians_plus (a b : R) : radians (a + b) = radians a + radians b.
Proof. unfold radians. ring. Qed.

Lemma degrees_radians (a : R) : degrees (radians a) = a.
Proof. unfold degrees, radians. field. apply PI_neq0. Qed.

Lemma adjAngle_angle (amt : R) (l : Launcher.t) :
  Launcher.angle (Launcher.adjAngle amt l) = Launcher.angle l + radians amt.
Proof. reflexivity. Qed.

Lemma adjAngles_angle (amts : list R) (l : Launcher.t) :
  Launcher.angle (Launcher.adjAngles amts l)
  = Launcher.angle l + radians (Rsum amts).
Proof.
  revert l. induction amts as [|amt amts IH]; intros l.
  - simpl. unfold radians. ring.
  - unfold Launcher.adjAngles in *. simpl fold_left. rewrite IH.
    rewrite adjAngle_angle. simpl Rsum. rewrite radians_plus. ring.
Qed.

(** * Properties of [ShotTracker] *)

Lemma Rltb_true (a b : R) : Rltb a b = true <-> a < b.
Proof. unfold Rltb. destruct (Rlt_dec a b); split; intros; easy. Qed.

Lemma Rltb_false (a b : R) : Rltb a b = false <-> b <= a.
Proof.
  unfold Rltb. destruct (Rlt_dec a b); split; intros; try easy; lra.
Qed.

Lemma Rleb_true (a b : R) : Rleb a b = true <-> a <= b.
Proof. unfold Rleb. destruct (Rle_dec a b); split; intros; easy. Qed.

Lemma Rleb_false (a b : R) : Rleb a b = false <-> b < a.
Proof.
  unfold Rleb. destruct (Rle_dec a b); split; intros; try easy; lra.
Qed.

Lemma tracker_update_proj (dt : R) (s : ShotTracker.t) :
  ShotTracker.proj (ShotTracker.update dt s)
  = snd (Projectile.getVel (Projectile.update dt (ShotTracker.proj s))).
Proof.
  unfold ShotTracker.update. cbn.
  destruct (Rleb 0 _ && Rleb _ 420); reflexivity.
Qed.

Lemma tracker_update_getX (dt : R) (s : ShotTracker.t) :
  ShotTracker.getX (ShotTracker.update dt s)
  = Projectile.xpos (ShotTracker.proj s)
    + dt * Projectile.xvel (ShotTracker.proj s).
Proof. unfold ShotTracker.getX. rewrite tracker_update_proj. reflexivity. Qed.

Lemma tracker_update_getY (dt : R) (s : ShotTracker.t) :
  ShotTracker.getY (ShotTracker.update dt s)
  = Projectile.ypos (Projectile.update dt (ShotTracker.proj s)).
Proof. unfold ShotTracker.getY. rewrite tracker_update_proj. reflexivity. Qed.

Lemma tracker_update_oid (dt : R) (s : ShotTracker.t) :
  ShotTracker.oid (ShotTracker.update dt s) = ShotTracker.oid s.
Proof.
  unfold ShotTracker.update. cbn.
  destruct (Rleb 0 _ && Rleb _ 420); reflexivity.
Qed.

Lemma tracker_update_marker_drawn (dt : R) (s : ShotTracker.t) :
  circle_drawn (ShotTracker.marker (ShotTracker.update dt s))
  = circle_drawn (ShotTracker.marker s).
Proof.
  unfold ShotTracker.update. cbn.
  destruct (Rleb 0 _ && Rleb _ 420); reflexivity.
Qed.

Lemma seen_getX (dt : R) (s : ShotTracker.t) :
  ShotTracker.getX (seen dt s) = ShotTracker.getX (ShotTracker.update dt s).
Proof. reflexivity. Qed.

Lemma seen_getY (dt : R) (s : ShotTracker.t) :
  ShotTracker.getY (seen dt s) = ShotTracker.getY (ShotTracker.update dt s).
Proof. reflexivity. Qed.

Lemma seen_oid (dt : R) (s : ShotTracker.t) :
  ShotTracker.oid (seen dt s) = ShotTracker.oid s.
Proof. unfold seen. cbn. apply tracker_update_oid. Qed.

Lemma oids_seen (dt : R) (l : list ShotTracker.t) :
  oids (map (seen dt) l) = oids l.
Proof.
  unfold oids. rewrite map_map. apply map_ext. intros s. apply seen_oid.
Qed.

(** * Properties of [ProjectileApp.updateShots] *)

Section UpdateShots.

Import ProjectileApp.

Variable dt : R.

(** The three branches of the loop body. *)

Lemma visit_in_flight (vars : locals) (s : ShotTracker.t) :
  0 < ShotTracker.getY (ShotTracker.update dt s) ->
  ShotTracker.getX (ShotTracker.update dt s) < 420 ->
  visit dt vars s
  = (mkLocals (alive vars ++ [seen dt s])
              (PFloat (round1 (ShotTracker.getX (ShotTracker.update dt s))))
              (PFloat (round1 (ShotTracker.getY (ShotTracker.update dt s))))
              (PFloat (round1 (fst (ShotTracker.getVel (ShotTracker.update dt s))))),
     seen dt s).
Proof.
  intros Hy Hx. unfold visit.
  destruct (ShotTracker.getVel (ShotTracker.update dt s)) as [sp s2] eqn:E.
  assert (E2 : s2 = seen dt s) by (unfold seen; rewrite E; reflexivity).
  subst s2. rewrite seen_getX, seen_getY.
  apply Rltb_true in Hy. apply Rltb_true in Hx. rewrite Hy, Hx. reflexivity.
Qed.

Lemma visit_off_window (vars : locals) (s : ShotTracker.t) :
  0 < ShotTracker.getY (ShotTracker.update dt s) ->
  420 < ShotTracker.getX (ShotTracker.update dt s) ->
  visit dt vars s
  = (mkLocals (alive vars) (PStr "N/A (>420)") (PFloat 0) (PStr "N/A"),
     ShotTracker.undraw (seen dt s)).
Proof.
  intros Hy Hx. unfold visit.
  destruct (ShotTracker.getVel (ShotTracker.update dt s)) as [sp s2] eqn:E.
  assert (E2 : s2 = seen dt s) by (unfold seen; rewrite E; reflexivity).
  subst s2. rewrite seen_getX, seen_getY.
  assert (Hx' : Rltb (ShotTracker.getX (ShotTracker.update dt s)) 420 = false)
    by (apply Rltb_false; lra).
  apply Rltb_true in Hy. apply Rltb_true in Hx. rewrite Hy, Hx, Hx'.
  reflexivity.
Qed.

Lemma visit_landed (vars : locals) (s : ShotTracker.t) :
  ShotTracker.getY (ShotTracker.update dt s) <= 0
  \/ ShotTracker.getX (ShotTracker.update dt s) = 420 ->
  visit dt vars s
  = (mkLocals (alive vars)
              (PFloat (round1 (ShotTracker.getX (ShotTracker.update dt s))))
              (PFloat 0)
              (PFloat (round1 (fst (ShotTracker.getVel (ShotTracker.update dt s))))),
     ShotTracker.undraw (seen dt s)).
Proof.
  intros H. unfold visit.
  destruct (ShotTracker.getVel (ShotTracker.update dt s)) as [sp s2] eqn:E.
  assert (E2 : s2 = seen dt s) by (unfold seen; rewrite E; reflexivity).
  subst s2. rewrite seen_getX, seen_getY.
  destruct H as [Hy | Hx].
  - apply Rltb_false in Hy. rewrite Hy. reflexivity.
  - rewrite Hx.
    assert (H1 : Rltb 420 420 = false) by (apply Rltb_false; lra).
    rewrite H1, !andb_false_r. reflexivity.
Qed.

(** Which branch is taken, from the position after the advance. *)
Lemma position_cases (s : ShotTracker.t) :
  let s1 := ShotTracker.update dt s in
  (0 < ShotTracker.getY s1 /\ ShotTracker.getX s1 < 420)
  \/ (0 < ShotTracker.getY s1 /\ 420 < ShotTracker.getX s1)
  \/ (ShotTracker.getY s1 <= 0 \/ ShotTracker.getX s1 = 420).
Proof.
  intros s1.
  destruct (Rlt_dec 0 (ShotTracker.getY s1)); [|right; right; left; lra].
  destruct (Rtotal_order (ShotTracker.getX s1) 420) as [H | [H | H]].
  - left. split; assumption.
  - right; right; right. exact H.
  - right; left. split; [assumption | lra].
Qed.

Lemma in_flight_seen (s : ShotTracker.t) :
  in_flight (seen dt s) = true
  <-> 0 < ShotTracker.getY (ShotTracker.update dt s)
      /\ ShotTracker.getX (ShotTracker.update dt s) < 420.
Proof.
  unfold in_flight. rewrite seen_getX, seen_getY, andb_true_iff.
  rewrite !Rltb_true. reflexivity.
Qed.

Lemma visit_alive (vars : locals) (s : ShotTracker.t) :
  alive (fst (visit dt vars s))
  = alive vars ++ filter in_flight [seen dt s].
Proof.
  destruct (position_cases s) as [[Hy Hx] | [[Hy Hx] | H]].
  - rewrite visit_in_flight by assumption. simpl.
    destruct (in_flight_seen s) as [_ H2]. rewrite H2 by (split; assumption).
    reflexivity.
  - rewrite visit_off_window by assumption. simpl.
    destruct (in_flight (seen dt s)) eqn:E.
    + apply in_flight_seen in E. lra.
    + symmetry. apply app_nil_r.
  - rewrite visit_landed by assumption. simpl.
    destruct (in_flight (seen dt s)) eqn:E.
    + apply in_flight_seen in E. lra.
    + symmetry. apply app_nil_r.
Qed.

Lemma loop_alive (l : list ShotTracker.t) (vars : locals) :
  alive (loop dt vars l)
  = alive vars ++ filter in_flight (map (seen dt) l).
Proof.
  revert vars. induction l as [|s l IH]; intros vars.
  - simpl. symmetry. apply app_nil_r.
  - unfold loop in *. simpl fold_left. rewrite IH, visit_alive.
    change (map (seen dt) (s :: l)) with ([seen dt s] ++ map (seen dt) l).
    rewrite filter_app, <- app_assoc. reflexivity.
Qed.

Lemma loop_snoc (l : list ShotTracker.t) (s : ShotTracker.t) (vars : locals) :
  loop dt vars (l ++ [s]) = fst (visit dt (loop dt vars l) s).
Proof. unfold loop. rewrite fold_left_app. reflexivity. Qed.

(** What the body stores in [x], [y] and [v] owes nothing to what they
    held before. *)
Lemma visit_overwrites (vars vars' : locals) (s : ShotTracker.t) :
  x (fst (visit dt vars s)) = x (fst (visit dt vars' s))
  /\ y (fst (visit dt vars s)) = y (fst (visit dt vars' s))
  /\ v (fst (visit dt vars s)) = v (fst (visit dt vars' s)).
Proof.
  destruct (position_cases s) as [[Hy Hx] | [[Hy Hx] | H]].
  - rewrite !visit_in_flight by assumption. repeat split.
  - rewrite !visit_off_window by assumption. repeat split.
  - rewrite !visit_landed by assumption. repeat split.
Qed.

(** After the body has run, [x] is not the empty string and [y] is a
    float. *)
Lemma visit_sets (vars : locals) (s : ShotTracker.t) :
  py_ne_str (x (fst (visit dt vars s))) "" = true
  /\ exists r, y (fst (visit dt vars s)) = PFloat r.
Proof.
  destruct (position_cases s) as [[Hy Hx] | [[Hy Hx] | H]].
  - rewrite visit_in_flight by assumption. split; [reflexivity | eexists; reflexivity].
  - rewrite visit_off_window by assumption. split; [reflexivity | eexists; reflexivity].
  - rewrite visit_landed by assumption. split; [reflexivity | eexists; reflexivity].
Qed.

End UpdateShots.

Section Driver.

Import ProjectileApp.

Lemma updateShots_shots (dt : R) (self : t) :
  shots (snd (updateShots dt self))
  = filter in_flight (map (seen dt) (shots self)).
Proof. unfold updateShots. simpl. apply loop_alive. Qed.

Lemma updateShots_empty (dt : R) (self : t) :
  shots self = [] ->
  updateShots dt self = ((PStr "", PStr "", PStr ""), self).
Proof.
  intros H. unfold updateShots. rewrite H. simpl.
  destruct self; simpl in *; subst; reflexivity.
Qed.

Lemma updateShots_snoc (dt : R) (self : t) (l : list ShotTracker.t)
      (s : ShotTracker.t) (vars : locals) :
  shots self = l ++ [s] ->
  fst (updateShots dt self)
  = (x (fst (visit dt vars s)), y (fst (visit dt vars s)),
     v (fst (visit dt vars s))).
Proof.
  intros H. unfold updateShots. rewrite H, loop_snoc. simpl.
  destruct (visit_overwrites dt (loop dt initial_locals l) vars s)
    as (Hx & Hy & Hv).
  rewrite Hx, Hy, Hv. reflexivity.
Qed.

(** The guard of [run] never compares a string with a float. *)
Lemma landed_test_defined (dt : R) (self : t) :
  exists c, landed_test (fst (fst (fst (updateShots dt self))))
                        (snd (fst (fst (updateShots dt self)))) = Some c.
Proof.
  destruct (shots self) as [|s0 l0] eqn:E.
  - rewrite updateShots_empty by assumption. exists false. reflexivity.
  - destruct (@exists_last _ (shots self)) as (l & s & El);
      [rewrite E; discriminate|].
    rewrite (updateShots_snoc dt self l s initial_locals El). simpl.
    destruct (visit_sets dt initial_locals s) as (Hx & r & Hy).
    unfold landed_test. rewrite Hx, Hy. simpl. eauto.
Qed.

Lemma frame_defined (key : string) (st : run_state) :
  exists b st', frame key st = Some (b, st').
Proof.
  unfold frame.
  destruct (landed_test_defined (1 / 120) (app st)) as (c & Hc).
  destruct (updateShots (1 / 120) (app st)) as [[[x0 y0] v0] app1].
  simpl in Hc. rewrite Hc.
  destruct (String.eqb key "q" || String.eqb key "Q"); [eauto|].
  destruct (handle_key key app1 (fresh st)). eauto.
Qed.

(** Within a collection without a repeated identity, a tracker is
    known by its identity. *)
Lemma oid_determines (l : list ShotTracker.t) (a b : ShotTracker.t) :
  NoDup (oids l) -> In a l -> In b l ->
  ShotTracker.oid a = ShotTracker.oid b -> a = b.
Proof.
  induction l as [|c l IH]; intros Hnd Ha Hb E; [destruct Ha|].
  simpl in Hnd. inversion Hnd as [|? ? Hnot Hnd']; subst.
  destruct Ha as [Ha | Ha], Hb as [Hb | Hb].
  - congruence.
  - subst c. exfalso. apply Hnot. rewrite E. apply in_map. exact Hb.
  - subst c. exfalso. apply Hnot. rewrite <- E. apply in_map. exact Ha.
  - apply IH; assumption.
Qed.

Lemma kept_iff (dt : R) (l : list ShotTracker.t) (s : ShotTracker.t) :
  NoDup (oids l) -> In s l ->
  In (ShotTracker.oid s) (oids (filter in_flight (map (seen dt) l)))
  <-> in_flight (seen dt s) = true.
Proof.
  intros Hnd Hs. split.
  - intros H. unfold oids in H. apply in_map_iff in H.
    destruct H as (s' & Eo & Hin). apply filter_In in Hin.
    destruct Hin as [Hin Hfl]. apply in_map_iff in Hin.
    destruct Hin as (s0 & Es & Hin0). subst s'.
    rewrite seen_oid in Eo.
    rewrite <- (oid_determines l s0 s Hnd Hin0 Hs Eo). exact Hfl.
  - intros H. rewrite <- (seen_oid dt s). apply in_map.
    apply filter_In. split; [apply in_map; exact Hs | exact H].
Qed.

Lemma oids_filter_incl (f : ShotTracker.t -> bool) (l : list ShotTracker.t)
      (id : nat) :
  In id (oids (filter f l)) -> In id (oids l).
Proof.
  unfold oids. rewrite !in_map_iff. intros (s & E & H).
  apply filter_In in H. exists s. tauto.
Qed.

Lemma NoDup_oids_filter (f : ShotTracker.t -> bool) (l : list ShotTracker.t) :
  NoDup (oids l) -> NoDup (oids (filter f l)).
Proof.
  induction l as [|s l IH]; intros H; simpl; [constructor|].
  inversion H as [|? ? Hnot Hnd]; subst.
  destruct (f s); simpl.
  - constructor; [|apply IH; exact Hnd].
    intros Hin. apply Hnot. eapply oids_filter_incl. exact Hin.
  - apply IH. exact Hnd.
Qed.

End Driver.

(** ** The sample trackers after one advance by 1/120 s *)

Lemma shot_boundary_position :
  0 < ShotTracker.getY (ShotTracker.update (1 / 120) shot_boundary)
  /\ ShotTracker.getX (ShotTracker.update (1 / 120) shot_boundary) = 420.
Proof.
  rewrite tracker_update_getX, tracker_update_getY.
  unfold shot_boundary, tracker_at, Projectile.update; simpl. lra.
Qed.

Lemma shot_beyond_position :
  0 < ShotTracker.getY (ShotTracker.update (1 / 120) shot_beyond)
  /\ 420 < ShotTracker.getX (ShotTracker.update (1 / 120) shot_beyond).
Proof.
  rewrite tracker_update_getX, tracker_update_getY.
  unfold shot_beyond, tracker_at, Projectile.update; simpl. lra.
Qed.

Section DriverClaims.

Import ProjectileApp.

(** C6.  When the active collection is not empty, the values that
    [updateShots] returns for the summary are the ones the loop body
    computes from the last shot in iteration order, whatever the
    variables held when its turn came: every earlier shot's values
    have been overwritten.  With [X], [Y] the position of that shot
    after the advance and [V] its speed, they are the rounded
    [(X, Y, V)] when it is in flight, the two marks with [y = 0.0] when
    it is above ground beyond 420, and the rounded [X] and [V] with
    [y = 0.0] otherwise. *)
Theorem updateShots_reports_last (dt : R) (self : t) (d : ShotTracker.t) :
  shots self <> [] ->
  let s := ShotTracker.update dt (last (shots self) d) in
  let X := ShotTracker.getX s in
  let Y := ShotTracker.getY s in
  let V := fst (ShotTracker.getVel s) in
  (forall vars,
      fst (updateShots dt self)
      = (x (fst (visit dt vars (last (shots self) d))),
         y (fst (visit dt vars (last (shots self) d))),
         v (fst (visit dt vars (last (shots self) d)))))
  /\ ((0 < Y /\ X < 420
       /\ fst (updateShots dt self)
          = (PFloat (round1 X), PFloat (round1 Y), PFloat (round1 V)))
      \/ (0 < Y /\ 420 < X
          /\ fst (updateShots dt self)
             = (PStr "N/A (>420)", PFloat 0, PStr "N/A"))
      \/ ((Y <= 0 \/ X = 420)
          /\ fst (updateShots dt self)
             = (PFloat (round1 X), PFloat 0, PFloat (round1 V)))).
Proof.
  intros H s X Y V. destruct (exists_last H) as (l & s0 & E).
  assert (Hl : last (shots self) d = s0) by (rewrite E; apply last_last).
  subst s X Y V. rewrite Hl. split.
  - intros vars. apply (updateShots_snoc dt self l s0 vars E).
  - rewrite (updateShots_snoc dt self l s0 initial_locals E).
    destruct (position_cases dt s0) as [[Hy Hx] | [[Hy Hx] | Hc]].
    + left. rewrite visit_in_flight by assumption. repeat split; assumption.
    + right; left. rewrite visit_off_window by assumption.
      repeat split; assumption.
    + right; right. rewrite visit_landed by assumption.
      split; [exact Hc | reflexivity].
Qed.

(** Two sample trackers: the values returned are those of the second. *)
Lemma updateShots_reports_last_witness :
  fst (updateShots (1 / 120) (app_with [shot_beyond; shot_inside]))
  = (x (fst (visit (1 / 120) initial_locals shot_inside)),
     y (fst (visit (1 / 120) initial_locals shot_inside)),
     v (fst (visit (1 / 120) initial_locals shot_inside))).
Proof.
  assert (Hne : shots (app_with [shot_beyond; shot_inside]) <> [])
    by (simpl; discriminate).
  apply (updateShots_reports_last (1 / 120)
           (app_with [shot_beyond; shot_inside]) shot_inside Hne).
Defined.

(** C10.  With no active shot, [updateShots] returns the empty string
    for [x] (and for [y] and [v]), the guard [x != ""] of [run] is
    false, and the turn of the loop leaves the two texts of the
    last-shot summary as they were. *)
Theorem empty_collection_frame (key : string) (st : run_state) :
  shots (app st) = [] ->
  (forall dt, fst (updateShots dt (app st)) = (PStr "", PStr "", PStr ""))
  /\ py_ne_str (PStr "") "" = false
  /\ landed_test (PStr "") (PStr "") = Some false
  /\ exists b st',
       frame key st = Some (b, st')
       /\ finPos st' = finPos st /\ finVel st' = finVel st.
Proof.
  intros H. split; [|split; [reflexivity|split; [reflexivity|]]].
  - intros dt. rewrite updateShots_empty by assumption. reflexivity.
  - unfold frame. rewrite updateShots_empty by assumption. simpl.
    destruct (String.eqb key "q" || String.eqb key "Q"); [eauto|].
    destruct (handle_key key (app st) (fresh st)). eauto.
Qed.

(** The first turn of a new application, with the key [f]. *)
Lemma empty_collection_frame_witness :
  exists b st',
    frame "f" (run_init init) = Some (b, st')
    /\ finPos st' = finPos (run_init init)
    /\ finVel st' = finVel (run_init init).
Proof.
  apply (empty_collection_frame "f" (run_init init)). reflexivity.
Defined.



End DriverClaims.

(** * Properties of [ProjectileApp.run] *)

Section RunLoop.

Import ProjectileApp.

(** [handle_key] leaves the collection alone or, on [f], appends one
    new tracker that takes the next identity. *)
Lemma handle_key_shots (key : string) (self : t) (id : nat) :
  (shots (fst (handle_key key self id)) = shots self
   /\ snd (handle_key key self id) = id)
  \/ (shots (fst (handle_key key self id))
      = shots self ++ [Launcher.fire id (launcher self)]
      /\ snd (handle_key key self id) = S id).
Proof.
  unfold handle_key.
  destruct (String.eqb key "Up"); [left; split; reflexivity|].
  destruct (String.eqb key "Down"); [left; split; reflexivity|].
  destruct (String.eqb key "Right"); [left; split; reflexivity|].
  destruct (String.eqb key "Left"); [left; split; reflexivity|].
  destruct (String.eqb key "f"); [right | left]; split; reflexivity.
Qed.

(** One turn of the loop, spelt out: the summary texts change only
    under the guard, the collection is the one [updateShots] rebuilt,
    with at most one new tracker behind it. *)
Lemma frame_spec (key : string) (st st1 : run_state) (b : bool) :
  frame key st = Some (b, st1) ->
  let r := updateShots (1 / 120) (app st) in
  exists c,
    landed_test (fst (fst (fst r))) (snd (fst (fst r))) = Some c
    /\ finPos st1 = (if c then setText (fst (fst (fst r))) (finPos st)
                     else finPos st)
    /\ finVel st1 = (if c then setText (snd (fst r)) (finVel st)
                     else finVel st)
    /\ ((oids (shots (app st1)) = oids (shots (snd r))
         /\ fresh st1 = fresh st)
        \/ (oids (shots (app st1)) = oids (shots (snd r)) ++ [fresh st]
            /\ fresh st1 = S (fresh st))).
Proof.
  intros H r. subst r. unfold frame in H.
  destruct (updateShots (1 / 120) (app st)) as [[[x0 y0] v0] app1].
  simpl. destruct (landed_test x0 y0) as [c|]; [|discriminate].
  exists c. split; [reflexivity|].
  destruct (String.eqb key "q" || String.eqb key "Q").
  - inversion H; subst; simpl. repeat split. left. split; reflexivity.
  - destruct (handle_key key app1 (fresh st)) as [app2 id] eqn:E.
    inversion H; subst; simpl. repeat split.
    destruct (handle_key_shots key app1 (fresh st)) as [[Hs Hi] | [Hs Hi]];
      rewrite E in Hs, Hi; simpl in Hs, Hi; rewrite Hs, Hi.
    + left. split; reflexivity.
    + right. split; [|reflexivity].
      unfold oids. rewrite map_app. reflexivity.
Qed.

Lemma updateShots_oids_incl (dt : R) (self : t) (id : nat) :
  In id (oids (shots (snd (updateShots dt self)))) -> In id (oids (shots self)).
Proof.
  rewrite updateShots_shots. intros H. apply oids_filter_incl in H.
  rewrite oids_seen in H. exact H.
Qed.

Lemma updateShots_NoDup (dt : R) (self : t) :
  NoDup (oids (shots self)) -> NoDup (oids (shots (snd (updateShots dt self)))).
Proof.
  intros H. rewrite updateShots_shots. apply NoDup_oids_filter.
  rewrite oids_seen. exact H.
Qed.

Lemma run_init_well_identified (self : t) :
  shots self = [] -> well_identified (run_init self).
Proof.
  intros H. unfold well_identified, run_init. simpl. rewrite H. simpl.
  split; constructor.
Qed.

Lemma frame_well_identified (key : string) (st st1 : run_state) (b : bool) :
  well_identified st -> frame key st = Some (b, st1) -> well_identified st1.
Proof.
  intros [Hnd Hlt] H. apply frame_spec in H.
  destruct H as (c & _ & _ & _ & Hs).
  assert (Hlt' : Forall (fun id => (id < fresh st)%nat)
                        (oids (shots (snd (updateShots (1 / 120) (app st)))))).
  { apply Forall_forall. intros id Hid.
    apply updateShots_oids_incl in Hid.
    rewrite Forall_forall in Hlt. apply Hlt. exact Hid. }
  pose proof (updateShots_NoDup (1 / 120) (app st) Hnd) as Hnd'.
  unfold well_identified.
  destruct Hs as [[Hs Hf] | [Hs Hf]]; rewrite Hs, Hf.
  - split; assumption.
  - split.
    + apply NoDup_app; [exact Hnd'| repeat constructor; intros []|].
      intros id H1 [H2 | []]. subst id.
      rewrite Forall_forall in Hlt'. apply Hlt' in H1. lia.
    + apply Forall_app. split.
      * eapply Forall_impl; [|exact Hlt']. simpl. intros; lia.
      * repeat constructor.
Qed.

(** An identity that has been given out and is no longer in the
    collection is not in it after the turn either. *)
Lemma frame_gone (key : string) (st st1 : run_state) (b : bool) (id : nat) :
  (id < fresh st)%nat ->
  ~ In id (oids (shots (app st))) ->
  frame key st = Some (b, st1) ->
  (id < fresh st1)%nat /\ ~ In id (oids (shots (app st1))).
Proof.
  intros Hlt Hout H. apply frame_spec in H.
  destruct H as (c & _ & _ & _ & Hs).
  assert (Hout' : ~ In id (oids (shots (snd (updateShots (1 / 120) (app st))))))
    by (intros Hin; apply Hout; eapply updateShots_oids_incl; exact Hin).
  destruct Hs as [[Hs Hf] | [Hs Hf]]; rewrite Hs, Hf.
  - split; assumption.
  - split; [lia|]. intros Hin. apply in_app_or in Hin.
    destruct Hin as [Hin | [Hin | []]]; [auto | lia].
Qed.

Lemma frames_gone (keys : list string) (st st2 : run_state) (b : bool)
      (id : nat) :
  (id < fresh st)%nat ->
  ~ In id (oids (shots (app st))) ->
  frames keys st = Some (b, st2) ->
  ~ In id (oids (shots (app st2))).
Proof.
  revert st. induction keys as [|key keys IH]; intros st Hlt Hout H.
  - simpl in H. inversion H; subst. exact Hout.
  - simpl in H. destruct (frame key st) as [[[|] st1]|] eqn:E;
      [| |discriminate].
    + destruct (frame_gone key st st1 true id Hlt Hout E) as [Hlt1 Hout1].
      eapply IH; eassumption.
    + inversion H; subst.
      apply (frame_gone key st st2 false id Hlt Hout E).
Qed.

Lemma frames_defined (keys : list string) (st : run_state) :
  exists b st', frames keys st = Some (b, st').
Proof.
  revert st. induction keys as [|key keys IH]; intros st; simpl; [eauto|].
  destruct (frame_defined key st) as ([|] & st1 & E); rewrite E; eauto.
Qed.

Lemma frames_well_identified (keys : list string) (st st' : run_state)
      (b : bool) :
  well_identified st -> frames keys st = Some (b, st') -> well_identified st'.
Proof.
  revert st. induction keys as [|key keys IH]; intros st Hwf H.
  - simpl in H. inversion H; subst. exact Hwf.
  - simpl in H. destruct (frame key st) as [[[|] st1]|] eqn:E;
      [| |discriminate].
    + apply (IH st1); [|exact H].
      apply (frame_well_identified key st st1 true Hwf E).
    + inversion H; subst.
      apply (frame_well_identified key st st' false Hwf E).
Qed.

(** Every state that [run] reaches from a new application is well
    identified. *)
Lemma run_well_identified (keys : list string) (st : run_state) (b : bool) :
  run keys init = Some (b, st) -> well_identified st.
Proof.
  apply frames_well_identified. apply run_init_well_identified. reflexivity.
Qed.

End RunLoop.

(** * Rounding *)

Lemma round_half_even_pos (q : R) : 1 / 2 < q -> (1 <= round_half_even q)%Z.
Proof.
  intros Hq. unfold round_half_even, frac_part.
  destruct (base_Int_part q) as [H1 H2].
  assert (Hf : (0 <= Int_part q)%Z).
  { assert (H : (-1 < Int_part q)%Z) by (apply lt_IZR; lra). lia. }
  destruct (Rlt_dec (q - IZR (Int_part q)) (1 / 2)) as [Hd | Hd].
  - assert (H : (0 < Int_part q)%Z) by (apply lt_IZR; lra). lia.
  - destruct (Rlt_dec (1 / 2) (q - IZR (Int_part q))) as [Hd' | Hd'];
      [lia|].
    assert (H : (0 < Int_part q)%Z) by (apply lt_IZR; lra).
    destruct (Z.even (Int_part q)); lia.
Qed.

(** A value above 0.05 is displayed as a positive number. *)
Lemma round1_pos (r : R) : 0.05 < r -> 0 < round1 r.
Proof.
  intros H. unfold round1.
  assert (Hz : (1 <= round_half_even (r * 10))%Z)
    by (apply round_half_even_pos; lra).
  apply IZR_le in Hz. lra.
Qed.

(** * A whole session: two shots leaving the window *)

Section Session.

Import ProjectileApp.

(** ** Motion of a tracker over several turns *)

Lemma motion_is (p : Projectile.t) (a b c d : R) :
  motion p = (a, b, c, d) ->
  Projectile.xpos p = a /\ Projectile.ypos p = b
  /\ Projectile.xvel p = c /\ Projectile.yvel p = d.
Proof. unfold motion. intros H. inversion H. repeat split. Qed.

Lemma seen_proj (dt : R) (s : ShotTracker.t) :
  ShotTracker.proj (seen dt s)
  = snd (Projectile.getVel (Projectile.update dt (ShotTracker.proj s))).
Proof.
  transitivity (snd (Projectile.getVel
                       (ShotTracker.proj (ShotTracker.update dt s)))).
  - reflexivity.
  - rewrite tracker_update_proj. reflexivity.
Qed.

Lemma seen_motion (dt : R) (s : ShotTracker.t) :
  motion (ShotTracker.proj (seen dt s))
  = motion (Projectile.update dt (ShotTracker.proj s)).
Proof. rewrite seen_proj. reflexivity. Qed.

Lemma update_motion (dt : R) (p q : Projectile.t) :
  motion p = motion q ->
  motion (Projectile.update dt p) = motion (Projectile.update dt q).
Proof.
  unfold motion, Projectile.update. cbn. intros H. inversion H. reflexivity.
Qed.

Lemma repeat_snoc (A : Type) (a : A) (n : nat) :
  repeat a (S n) = repeat a n ++ [a].
Proof. simpl. apply repeat_cons. Qed.

Lemma iter_seen_motion (dt : R) (n : nat) (s : ShotTracker.t) :
  motion (ShotTracker.proj (Nat.iter n (seen dt) s))
  = motion (Projectile.updates (repeat dt n) (ShotTracker.proj s)).
Proof.
  induction n as [|n IH].
  - reflexivity.
  - rewrite Nat.iter_succ, seen_motion, repeat_snoc, updates_app.
    apply update_motion. exact IH.
Qed.

(** The motion after [n] equal steps, in closed form. *)
Lemma updates_motion (dt : R) (n : nat) (p : Projectile.t) :
  motion (Projectile.updates (repeat dt n) p)
  = (Projectile.xpos p + INR n * dt * Projectile.xvel p,
     Projectile.ypos p + Projectile.yvel p * (INR n * dt)
     - 4.9 * (INR n * dt) ^ 2,
     Projectile.xvel p,
     Projectile.yvel p - 9.8 * (INR n * dt)).
Proof.
  induction n as [|n IH].
  - unfold motion. cbn [repeat Projectile.updates fold_left INR].
    apply f_equal2; [apply f_equal2; [apply f_equal2|]|];
      try reflexivity; lra.
  - rewrite repeat_snoc, updates_app.
    apply motion_is in IH. destruct IH as (Hx & Hy & Hvx & Hvy).
    unfold motion. cbn [Projectile.updates fold_left].
    unfold Projectile.update.
    cbn [Projectile.xpos Projectile.ypos Projectile.xvel Projectile.yvel].
    rewrite Hx, Hy, Hvx, Hvy, S_INR. decimals.
    apply f_equal2; [apply f_equal2; [apply f_equal2|]|];
      try reflexivity; field.
Qed.

Lemma iter_seen_oid (dt : R) (n : nat) (s : ShotTracker.t) :
  ShotTracker.oid (Nat.iter n (seen dt) s) = ShotTracker.oid s.
Proof.
  induction n as [|n IH]; [reflexivity|].
  rewrite Nat.iter_succ, seen_oid. exact IH.
Qed.

(** Where a tracker is after [n] turns, in closed form. *)
Lemma iter_seen_getX (dt : R) (n : nat) (s : ShotTracker.t) :
  ShotTracker.getX (Nat.iter n (seen dt) s)
  = Projectile.xpos (ShotTracker.proj s)
    + INR n * dt * Projectile.xvel (ShotTracker.proj s).
Proof.
  pose proof (iter_seen_motion dt n s) as H.
  rewrite updates_motion in H. apply motion_is in H. apply H.
Qed.

Lemma iter_seen_getY (dt : R) (n : nat) (s : ShotTracker.t) :
  ShotTracker.getY (Nat.iter n (seen dt) s)
  = Projectile.ypos (ShotTracker.proj s)
    + Projectile.yvel (ShotTracker.proj s) * (INR n * dt)
    - 4.9 * (INR n * dt) ^ 2.
Proof.
  pose proof (iter_seen_motion dt n s) as H.
  rewrite updates_motion in H. apply motion_is in H. apply H.
Qed.

(** ** Turns in which no shot leaves the collection *)

Lemma filter_all (A : Type) (f : A -> bool) (l : list A) :
  Forall (fun a => f a = true) l -> filter f l = l.
Proof.
  induction 1 as [|a l Ha _ IH]; simpl; [reflexivity|].
  rewrite Ha, IH. reflexivity.
Qed.

Lemma updateShots_eq (dt : R) (self : t) :
  updateShots dt self
  = (fst (updateShots dt self),
     mk (launcher self) (initAngle self) (initVel self)
        (filter in_flight (map (seen dt) (shots self)))).
Proof.
  unfold updateShots. cbn [fst]. rewrite loop_alive. reflexivity.
Qed.

(** The guard of [run] is false when the collection is empty or the
    last shot is in flight more than 0.05 above ground. *)
Lemma guard_false (dt : R) (self : t) :
  shots self = []
  \/ (exists l s, shots self = l ++ [s]
                  /\ in_flight (seen dt s) = true
                  /\ 0.05 < ShotTracker.getY (seen dt s)) ->
  landed_test (fst (fst (fst (updateShots dt self))))
              (snd (fst (fst (updateShots dt self)))) = Some false.
Proof.
  intros [H | (l & s & E & Hfl & Hy)].
  - rewrite updateShots_empty by assumption. reflexivity.
  - rewrite (updateShots_snoc dt self l s initial_locals E).
    apply in_flight_seen in Hfl. destruct Hfl as [Hy0 Hx].
    rewrite visit_in_flight by assumption. cbn [fst snd x y v].
    unfold landed_test. cbn [py_ne_str py_le]. f_equal.
    apply Rleb_false. apply round1_pos. exact Hy.
Qed.

Lemma frame_all_in_flight (key : string) (st : run_state) :
  String.eqb key "q" || String.eqb key "Q" = false ->
  Forall (fun s => in_flight (seen (1 / 120) s) = true) (shots (app st)) ->
  (shots (app st) = []
   \/ exists l s, shots (app st) = l ++ [s]
                  /\ 0.05 < ShotTracker.getY (seen (1 / 120) s)) ->
  let app1 := mk (launcher (app st)) (initAngle (app st)) (initVel (app st))
                 (map (seen (1 / 120)) (shots (app st))) in
  frame key st
  = Some (true, mkRun (fst (handle_key key app1 (fresh st)))
                      (finPos st) (finVel st)
                      (snd (handle_key key app1 (fresh st)))).
Proof.
  intros Hk Hall Hlast app1. subst app1. unfold frame.
  assert (Hg : landed_test (fst (fst (fst (updateShots (1 / 120) (app st)))))
                           (snd (fst (fst (updateShots (1 / 120) (app st)))))
               = Some false).
  { apply guard_false. destruct Hlast as [H | (l & s & E & Hy)]; [left; exact H|].
    right. exists l, s. split; [exact E|]. split; [|exact Hy].
    rewrite Forall_forall in Hall. apply Hall. rewrite E.
    apply in_or_app. right. left. reflexivity. }
  assert (Hall' : Forall (fun s => in_flight s = true)
                         (map (seen (1 / 120)) (shots (app st))))
    by (apply Forall_map; exact Hall).
  rewrite updateShots_eq, (filter_all _ _ _ Hall').
  destruct (fst (updateShots (1 / 120) (app st))) as [[x0 y0] v0].
  cbn [fst snd] in Hg. rewrite Hg, Hk.
  destruct (handle_key key _ (fresh st)). reflexivity.
Qed.

Lemma frames_quiet (n : nat) (st : run_state) :
  shots (app st) <> [] ->
  (forall j s, (j < n)%nat -> In s (shots (app st)) ->
               in_flight (Nat.iter (S j) (seen (1 / 120)) s) = true
               /\ 0.05 < ShotTracker.getY (Nat.iter (S j) (seen (1 / 120)) s)) ->
  frames (repeat "" n) st
  = Some (true,
          mkRun (mk (launcher (app st)) (initAngle (app st)) (initVel (app st))
                    (map (Nat.iter n (seen (1 / 120))) (shots (app st))))
                (finPos st) (finVel st) (fresh st)).
Proof.
  revert st. induction n as [|n IH]; intros st Hne H.
  - cbn [repeat frames Nat.iter]. rewrite map_id.
    destruct st as [[l a v sh] fp fv fr]. reflexivity.
  - cbn [repeat frames].
    rewrite frame_all_in_flight.
    + cbn [handle_key String.eqb Ascii.eqb Bool.eqb fst snd].
      rewrite IH.
      * cbn [app launcher initAngle initVel shots finPos finVel fresh].
        rewrite map_map.
        rewrite (map_ext _ (Nat.iter (S n) (seen (1 / 120))));
          [reflexivity|].
        intros s. rewrite Nat.iter_succ_r. reflexivity.
      * cbn [app shots]. intros E. apply map_eq_nil in E. contradiction.
      * cbn [app shots]. intros j s' Hj Hin. apply in_map_iff in Hin.
        destruct Hin as (s & Es & Hin). subst s'.
        rewrite <- !Nat.iter_succ_r. apply H; [lia | exact Hin].
    + reflexivity.
    + apply Forall_forall. intros s Hin.
      apply (H 0%nat s); [lia | exact Hin].
    + right. destruct (exists_last Hne) as (l & s & E). exists l, s.
      split; [exact E|]. apply (H 0%nat s); [lia|].
      rewrite E. apply in_or_app. right. left. reflexivity.
Qed.

(** ** Turns with an empty collection *)

Lemma frames_app (keys1 keys2 : list string) (st st1 : run_state) :
  frames keys1 st = Some (true, st1) ->
  frames (keys1 ++ keys2) st = frames keys2 st1.
Proof.
  revert st. induction keys1 as [|key keys1 IH]; intros st H.
  - cbn in H. inversion H. reflexivity.
  - cbn [frames List.app] in *.
    destruct (frame key st) as [[[|] st']|]; try discriminate.
    apply IH. exact H.
Qed.

Lemma frame_no_shots (key : string) (st : run_state) :
  String.eqb key "q" || String.eqb key "Q" = false ->
  shots (app st) = [] ->
  frame key st
  = Some (true, mkRun (fst (handle_key key (app st) (fresh st)))
                      (finPos st) (finVel st)
                      (snd (handle_key key (app st) (fresh st)))).
Proof.
  intros Hk H. unfold frame. rewrite updateShots_empty by assumption.
  cbn [landed_test py_ne_str String.eqb negb]. rewrite Hk.
  destruct (handle_key key (app st) (fresh st)). reflexivity.
Qed.

Lemma frames_up (n : nat) (st : run_state) :
  shots (app st) = [] ->
  exists st',
    frames (repeat "Up" n) st = Some (true, st')
    /\ shots (app st') = []
    /\ Launcher.angle (launcher (app st'))
       = Launcher.angle (launcher (app st)) + INR n * radians 2.5
    /\ Launcher.vel (launcher (app st')) = Launcher.vel (launcher (app st))
    /\ finPos st' = finPos st /\ finVel st' = finVel st
    /\ fresh st' = fresh st.
Proof.
  revert st. induction n as [|n IH]; intros st H.
  - exists st. cbn [repeat frames]. repeat split; try reflexivity; try assumption; simpl INR; lra.
  - cbn [repeat frames]. rewrite frame_no_shots by (assumption || reflexivity).
    cbn [handle_key String.eqb Ascii.eqb Bool.eqb fst snd].
    match goal with |- context [frames _ ?s] => destruct (IH s) as
        (st' & Hf & Hs & Ha & Hv & Hp & Hq & Hr) end; [exact H|].
    exists st'. rewrite Hf, Hs, Ha, Hv, Hp, Hq, Hr, S_INR.
    cbn. repeat split; try reflexivity. lra.
Qed.

Lemma frames_right (n : nat) (st : run_state) :
  shots (app st) = [] ->
  exists st',
    frames (repeat "Right" n) st = Some (true, st')
    /\ shots (app st') = []
    /\ Launcher.angle (launcher (app st')) = Launcher.angle (launcher (app st))
    /\ Launcher.vel (launcher (app st'))
       = Launcher.vel (launcher (app st)) + INR n
    /\ finPos st' = finPos st /\ finVel st' = finVel st
    /\ fresh st' = fresh st.
Proof.
  revert st. induction n as [|n IH]; intros st H.
  - exists st. cbn [repeat frames]. repeat split; try reflexivity; try assumption; simpl INR; lra.
  - cbn [repeat frames]. rewrite frame_no_shots by (assumption || reflexivity).
    cbn [handle_key String.eqb Ascii.eqb Bool.eqb fst snd].
    match goal with |- context [frames _ ?s] => destruct (IH s) as
        (st' & Hf & Hs & Ha & Hv & Hp & Hq & Hr) end; [exact H|].
    exists st'. rewrite Hf, Hs, Ha, Hv, Hp, Hq, Hr, S_INR.
    cbn. repeat split; try reflexivity. lra.
Qed.

(** ** A shot fired at 60 degrees with 101 m/s *)

Lemma sqrt3_bound : 1.7 < sqrt 3.
Proof.
  pose proof (sqrt_pos 3) as H0.
  pose proof (sqrt_sqrt 3) as H1.
  assert (H3 : 0 <= 3) by lra. specialize (H1 H3).
  destruct (Rlt_dec 1.7 (sqrt 3)) as [H | H]; [exact H|]. exfalso. nra.
Qed.

Lemma radians_degrees (a : R) : radians (degrees a) = a.
Proof. unfold degrees, radians. field. apply PI_neq0. Qed.

Lemma INR_literal (k : nat) (z : Z) :
  Z.of_nat k = z -> INR k = IZR z.
Proof. intros H. rewrite INR_IZR_INZ, H. reflexivity. Qed.

Lemma fired_motion (id : nat) (l : Launcher.t) :
  Launcher.angle l = PI / 3 -> Launcher.vel l = 101 ->
  Projectile.xpos (ShotTracker.proj (Launcher.fire id l)) = 0
  /\ Projectile.ypos (ShotTracker.proj (Launcher.fire id l)) = 0
  /\ Projectile.xvel (ShotTracker.proj (Launcher.fire id l)) = 101 * (1 / 2)
  /\ Projectile.yvel (ShotTracker.proj (Launcher.fire id l))
     = 101 * (sqrt 3 / 2).
Proof.
  intros Ha Hv. unfold Launcher.fire, ShotTracker.init, Projectile.init.
  cbn. rewrite Ha, Hv, radians_degrees, cos_PI3, sin_PI3.
  repeat split; reflexivity.
Qed.

Lemma fired_position (id : nat) (l : Launcher.t) (k : nat) :
  Launcher.angle l = PI / 3 -> Launcher.vel l = 101 ->
  ShotTracker.getX (Nat.iter k (seen (1 / 120)) (Launcher.fire id l))
  = INR k * (101 / 240)
  /\ ShotTracker.getY (Nat.iter k (seen (1 / 120)) (Launcher.fire id l))
     = INR k / 120 * (101 * (sqrt 3 / 2) - 4.9 * (INR k / 120)).
Proof.
  intros Ha Hv. destruct (fired_motion id l Ha Hv) as (Hx & Hy & Hvx & Hvy).
  rewrite iter_seen_getX, iter_seen_getY, Hx, Hy, Hvx, Hvy.
  rewrite half_gravity_fraction. split; field.
Qed.

Lemma fired_in_flight (id : nat) (l : Launcher.t) (k : nat) :
  Launcher.angle l = PI / 3 -> Launcher.vel l = 101 ->
  (1 <= k <= 998)%nat ->
  in_flight (Nat.iter k (seen (1 / 120)) (Launcher.fire id l)) = true
  /\ 0.05 < ShotTracker.getY (Nat.iter k (seen (1 / 120)) (Launcher.fire id l)).
Proof.
  intros Ha Hv [Hk1 Hk2].
  destruct (fired_position id l k Ha Hv) as [Hx Hy].
  assert (H1 : 1 <= INR k) by (apply (le_INR 1); exact Hk1).
  assert (H2 : INR k <= 998).
  { rewrite (INR_literal k (Z.of_nat k) eq_refl). apply IZR_le. lia. }
  pose proof sqrt3_bound as H3.
  assert (Hy' : 0.05 < ShotTracker.getY
                         (Nat.iter k (seen (1 / 120)) (Launcher.fire id l))).
  { rewrite Hy.
    assert (Hu : 1 / 120 <= INR k / 120) by lra.
    assert (Hw : 45 <= 101 * (sqrt 3 / 2) - 4.9 * (INR k / 120)) by lra.
    nra. }
  split; [|exact Hy'].
  unfold in_flight. apply andb_true_iff. rewrite !Rltb_true. rewrite Hx. lra.
Qed.

Lemma fired_beyond (id : nat) (l : Launcher.t) :
  Launcher.angle l = PI / 3 -> Launcher.vel l = 101 ->
  0 < ShotTracker.getY (Nat.iter 999 (seen (1 / 120)) (Launcher.fire id l))
  /\ 420 < ShotTracker.getX (Nat.iter 999 (seen (1 / 120)) (Launcher.fire id l)).
Proof.
  intros Ha Hv. destruct (fired_position id l 999 Ha Hv) as [Hx Hy].
  rewrite Hx, Hy, (INR_literal 999 999%Z eq_refl).
  pose proof sqrt3_bound as H3. split; [|lra].
  assert (Hw : 45 <= 101 * (sqrt 3 / 2) - 4.9 * (999 / 120)) by lra.
  nra.
Qed.

(** ** The session [two_shot_keys]

    The first shot is advanced 998 times and the second 997 times while
    both are in flight; the next advance takes the first one to
    [x = 999 * 101 / 240 > 420], far above ground, while the second one
    is at [x = 998 * 101 / 240 < 420]. *)
Lemma two_shot_session :
  exists (st : run_state) (a b : ShotTracker.t),
    run two_shot_keys init = Some (true, st)
    /\ shots (app st) = [a; b]
    /\ ShotTracker.oid a = 0%nat /\ ShotTracker.oid b = 1%nat
    /\ fresh st = 2%nat
    /\ text (finPos st) = PStr "" /\ text (finVel st) = PStr ""
    /\ 0 < ShotTracker.getY (ShotTracker.update (1 / 120) a)
    /\ 420 < ShotTracker.getX (ShotTracker.update (1 / 120) a)
    /\ in_flight (seen (1 / 120) b) = true
    /\ 0.05 < ShotTracker.getY (seen (1 / 120) b).
Proof.
  unfold run, two_shot_keys.
  destruct (frames_up 6 (run_init init) eq_refl)
    as (s1 & F1 & S1 & A1 & V1 & P1 & Q1 & R1).
  rewrite (frames_app _ _ _ _ F1).
  destruct (frames_right 61 s1 S1) as (s2 & F2 & S2 & A2 & V2 & P2 & Q2 & R2).
  rewrite (frames_app _ _ _ _ F2).
  assert (Ha : Launcher.angle (launcher (app s2)) = PI / 3).
  { rewrite A2, A1, (INR_literal 6 6%Z eq_refl). cbn. unfold radians. lra. }
  assert (Hv : Launcher.vel (launcher (app s2)) = 101).
  { rewrite V2, V1, (INR_literal 61 61%Z eq_refl). cbn. lra. }
  assert (Hfr : fresh s2 = 0%nat) by (rewrite R2, R1; reflexivity).
  assert (Hfp : text (finPos s2) = PStr "") by (rewrite P2, P1; reflexivity).
  assert (Hfv : text (finVel s2) = PStr "") by (rewrite Q2, Q1; reflexivity).
  cbn [List.app frames].
  rewrite frame_no_shots by (assumption || reflexivity).
  cbn [handle_key String.eqb Ascii.eqb Bool.eqb fst snd].
  rewrite S2, Hfr. cbn [List.app].
  set (l := launcher (app s2)) in *.
  rewrite frame_all_in_flight; cbn [app shots launcher initAngle initVel
                                     finPos finVel fresh].
  - cbn [handle_key String.eqb Ascii.eqb Bool.eqb fst snd map List.app
         launcher initAngle initVel shots].
    rewrite frames_quiet;
      cbn [app shots launcher initAngle initVel finPos finVel fresh].
    + cbn [map]. rewrite <- Nat.iter_succ_r.
      eexists _, _, _. split; [reflexivity|].
      split; [reflexivity|].
      split; [apply iter_seen_oid|]. split; [apply iter_seen_oid|].
      split; [reflexivity|]. split; [exact Hfp|]. split; [exact Hfv|].
      split; [|split].
      * apply (fired_beyond 0 l Ha Hv).
      * apply (fired_beyond 0 l Ha Hv).
      * apply (fired_in_flight 1 l 998 Ha Hv). lia.
    + discriminate.
    + intros j s Hj [Hs | [Hs | []]]; subst s.
      * rewrite <- !Nat.iter_succ_r. apply (fired_in_flight 0 l _ Ha Hv). lia.
      * apply (fired_in_flight 1 l _ Ha Hv). lia.
  - reflexivity.
  - constructor; [|constructor].
    apply (fired_in_flight 0 l 1 Ha Hv). lia.
  - right. exists [], (Launcher.fire 0 l). split; [reflexivity|].
    apply (fired_in_flight 0 l 1 Ha Hv). lia.
Qed.

End Session.

Section StoredAngle.

Import ProjectileApp.
Import PrimFloat.

Lemma adjAngles_binary64 (amts : list float) (l : Binary64.t) :
  Binary64.angle (Binary64.adjAngles amts l)
  = fold_left (fun a amt => (a + Binary64.radians amt)%float) amts
              (Binary64.angle l).
Proof.
  revert l. induction amts as [|amt amts IH]; intros l; [reflexivity|].
  unfold Binary64.adjAngles in *. cbn [fold_left]. rewrite IH. reflexivity.
Qed.

(** C7, as amended.  In exact arithmetic, after any sequence of
    [adjAngle] calls on a new launcher the stored angle is, in radians,
    45 degrees plus the sum of the amounts, whatever that sum is; five
    calls with 2.5 store 57.5 degrees, and five [Up] keys in [run] are
    five such calls.  In binary64, the arithmetic of the program, the
    stored angle is [radians(45.0)] with [radians(amt)] added for each
    call in turn, again without bounds; after five calls with 2.5 that
    is 1.0035643198967392, one unit in the last place (2^-52) below
    [radians(57.5)], and converted to degrees it is 2^-46 below
    57.5. *)
Theorem adjAngle_accumulates :
  (forall amts : list R,
      Launcher.angle (Launcher.adjAngles amts Launcher.init)
      = radians (45 + Rsum amts))
  /\ Launcher.angle (Launcher.adjAngles [2.5; 2.5; 2.5; 2.5; 2.5] Launcher.init)
     = radians 57.5
  /\ degrees (Launcher.angle
                (Launcher.adjAngles [2.5; 2.5; 2.5; 2.5; 2.5] Launcher.init))
     = 57.5
  /\ (exists st,
        run ["Up"; "Up"; "Up"; "Up"; "Up"] init = Some (true, st)
        /\ Launcher.angle (launcher (app st)) = radians 57.5)
  /\ (forall amts : list float,
        Binary64.angle (Binary64.adjAngles amts Binary64.init)
        = fold_left (fun a amt => (a + Binary64.radians amt)%float) amts
                    (Binary64.radians 45))
  /\ Binary64.angle
       (Binary64.adjAngles [2.5; 2.5; 2.5; 2.5; 2.5]%float Binary64.init)
     = 0x1.00e9975d6394p+0%float
  /\ (Binary64.radians 57.5
      - Binary64.angle
          (Binary64.adjAngles [2.5; 2.5; 2.5; 2.5; 2.5] Binary64.init)
      = 0x1p-52)%float
  /\ (57.5
      - Binary64.degrees
          (Binary64.angle
             (Binary64.adjAngles [2.5; 2.5; 2.5; 2.5; 2.5] Binary64.init))
      = 0x1p-46)%float.
Proof.
  assert (H : forall amts,
             Launcher.angle (Launcher.adjAngles amts Launcher.init)
             = radians (45 + Rsum amts)).
  { intros amts. rewrite adjAngles_angle, radians_plus. reflexivity. }
  assert (E : 45 + Rsum [2.5; 2.5; 2.5; 2.5; 2.5] = 57.5) by (simpl; lra).
  split; [exact H|]. rewrite H, E. split; [reflexivity|].
  split; [apply degrees_radians|].
  split.
  { destruct (frames_up 5 (run_init init) eq_refl) as (st & Hf & _ & Ha & _).
    exists st. split; [exact Hf|].
    rewrite Ha, (INR_literal 5 5%Z eq_refl). cbn. unfold radians. lra. }
  split; [intros amts; apply adjAngles_binary64|].
  split; [vm_compute; reflexivity|].
  split; vm_compute; reflexivity.
Qed.

(** C7 as first stated fails in the arithmetic of the program: after
    five calls of [adjAngle] with 2.5 on a new launcher the stored
    angle is not [radians(57.5)], and converted to degrees it is not
    57.5. *)
Lemma adjAngle_binary64_counterexample :
  ~ (Binary64.angle
       (Binary64.adjAngles [2.5; 2.5; 2.5; 2.5; 2.5]%float Binary64.init)
     = Binary64.radians 57.5
     \/ Binary64.degrees
          (Binary64.angle
             (Binary64.adjAngles [2.5; 2.5; 2.5; 2.5; 2.5]%float
                                 Binary64.init))
        = 57.5%float).
Proof.
  intros [E | E].
  - assert (H : ltb (Binary64.angle
                       (Binary64.adjAngles [2.5; 2.5; 2.5; 2.5; 2.5]%float
                                           Binary64.init))
                    (Binary64.radians 57.5) = true)
      by (vm_compute; reflexivity).
    rewrite E in H. vm_compute in H. discriminate H.
  - assert (H : ltb (Binary64.degrees
                       (Binary64.angle
                          (Binary64.adjAngles [2.5; 2.5; 2.5; 2.5; 2.5]%float
                                              Binary64.init)))
                    57.5%float = true)
      by (vm_compute; reflexivity).
    rewrite E in H. vm_compute in H. discriminate H.
Qed.

End StoredAngle.

Section RunClaims.

Import ProjectileApp.

(** Which trackers a turn of the loop keeps. *)
Lemma frame_keeps (key : string) (st st1 : run_state) (b : bool)
      (s : ShotTracker.t) :
  well_identified st ->
  In s (shots (app st)) ->
  frame key st = Some (b, st1) ->
  In (ShotTracker.oid s) (oids (shots (app st1)))
  <-> 0 < ShotTracker.getY (ShotTracker.update (1 / 120) s)
      /\ ShotTracker.getX (ShotTracker.update (1 / 120) s) < 420.
Proof.
  intros [Hnd Hlt] Hin Hf.
  assert (Hid : (ShotTracker.oid s < fresh st)%nat).
  { rewrite Forall_forall in Hlt. apply Hlt. unfold oids. apply in_map.
    exact Hin. }
  destruct (frame_spec key st st1 b Hf) as (c & _ & _ & _ & Hs).
  rewrite <- in_flight_seen, <- (kept_iff (1 / 120) _ s Hnd Hin).
  rewrite <- updateShots_shots.
  destruct Hs as [[Hs Hfr] | [Hs Hfr]]; rewrite Hs; [reflexivity|].
  rewrite in_app_iff. simpl. split; [|tauto].
  intros [H | [H | []]]; [exact H | lia].
Qed.

(** C2, as amended.  A shot stays in the active collection exactly
    when, after the advance, [y > 0] and [x < 420]; it is removed
    exactly when [y <= 0] or [x >= 420].  In particular a shot with
    [y > 0] and [x > 420] is removed, its marker undrawn, in that very
    turn.  A shot once removed is in the collection of no later
    turn. *)
Theorem retirement (key : string) (st : run_state) (s : ShotTracker.t) :
  well_identified st ->
  In s (shots (app st)) ->
  (forall dt,
      In (ShotTracker.oid s) (oids (shots (snd (updateShots dt (app st)))))
      <-> 0 < ShotTracker.getY (ShotTracker.update dt s)
          /\ ShotTracker.getX (ShotTracker.update dt s) < 420)
  /\ (forall dt,
        0 < ShotTracker.getY (ShotTracker.update dt s) ->
        420 < ShotTracker.getX (ShotTracker.update dt s) ->
        ~ In (ShotTracker.oid s) (oids (shots (snd (updateShots dt (app st)))))
        /\ forall vars,
            circle_drawn (ShotTracker.marker (snd (visit dt vars s))) = false)
  /\ exists b st1,
       frame key st = Some (b, st1)
       /\ (In (ShotTracker.oid s) (oids (shots (app st1)))
           <-> 0 < ShotTracker.getY (ShotTracker.update (1 / 120) s)
               /\ ShotTracker.getX (ShotTracker.update (1 / 120) s) < 420)
       /\ (~ In (ShotTracker.oid s) (oids (shots (app st1))) ->
           forall keys b' st2,
             frames keys st1 = Some (b', st2) ->
             ~ In (ShotTracker.oid s) (oids (shots (app st2)))).
Proof.
  intros Hwf Hin. pose proof Hwf as [Hnd Hlt].
  assert (Hkept : forall dt,
             In (ShotTracker.oid s) (oids (shots (snd (updateShots dt (app st)))))
             <-> 0 < ShotTracker.getY (ShotTracker.update dt s)
                 /\ ShotTracker.getX (ShotTracker.update dt s) < 420).
  { intros dt. rewrite updateShots_shots, (kept_iff dt _ s Hnd Hin).
    apply in_flight_seen. }
  assert (Hid : (ShotTracker.oid s < fresh st)%nat).
  { rewrite Forall_forall in Hlt. apply Hlt. unfold oids. apply in_map.
    exact Hin. }
  split; [exact Hkept|]. split.
  - intros dt Hy Hx. split.
    + rewrite Hkept. lra.
    + intros vars. rewrite visit_off_window by assumption. reflexivity.
  - destruct (frame_defined key st) as (b & st1 & Hf).
    exists b, st1. split; [exact Hf|].
    split; [exact (frame_keeps key st st1 b s Hwf Hin Hf)|].
    intros Hout keys b' st2 Hfs.
    apply (frames_gone keys st1 st2 b' (ShotTracker.oid s)); try assumption.
    destruct (frame_spec key st st1 b Hf) as (c & _ & _ & _ & Hs).
    destruct Hs as [[_ Hfr] | [_ Hfr]]; rewrite Hfr; lia.
Qed.

(** The sample tracker beyond the window, followed by one in flight. *)
Lemma retirement_witness :
  exists b st1,
    frame "f" (run_with [shot_beyond; shot_inside] 2) = Some (b, st1)
    /\ ~ In (ShotTracker.oid shot_beyond) (oids (shots (app st1))).
Proof.
  assert (Hwf : well_identified (run_with [shot_beyond; shot_inside] 2)).
  { split; simpl.
    - constructor; [intros [H | []]; discriminate|].
      constructor; [intros []|constructor].
    - repeat constructor. }
  assert (Hin : In shot_beyond (shots (app (run_with [shot_beyond; shot_inside] 2))))
    by (left; reflexivity).
  destruct (retirement "f" _ shot_beyond Hwf Hin)
    as (_ & _ & b & st1 & Hf & Hiff & _).
  exists b, st1. split; [exact Hf|].
  rewrite Hiff. destruct shot_beyond_position as [_ Hx]. lra.
Defined.

(** C2 as first stated fails in the session [two_shot_keys]: in the
    turn after the last key the first shot has [y > 0] and [x > 420],
    and the rebuilt collection does not hold it. *)
Lemma retirement_counterexample :
  ~ (forall (st st1 : run_state) (s : ShotTracker.t) (b : bool),
        run two_shot_keys init = Some (true, st) ->
        In s (shots (app st)) ->
        frame "" st = Some (b, st1) ->
        (~ In (ShotTracker.oid s) (oids (shots (app st1)))
         <-> ShotTracker.getY (ShotTracker.update (1 / 120) s) <= 0)
        /\ (0 < ShotTracker.getY (ShotTracker.update (1 / 120) s) ->
            420 < ShotTracker.getX (ShotTracker.update (1 / 120) s) ->
            In (ShotTracker.oid s) (oids (shots (app st1))))).
Proof.
  intros H.
  destruct two_shot_session
    as (st & a & b & Hrun & Hsh & Hoa & Hob & Hfr & _ & _ & Hy & Hx & _).
  destruct (frame_defined "" st) as (b0 & st1 & Hf).
  assert (Hin : In a (shots (app st))) by (rewrite Hsh; left; reflexivity).
  pose proof (run_well_identified two_shot_keys st true Hrun) as Hwf.
  destruct (H st st1 a b0 Hrun Hin Hf) as [_ Hkeep].
  apply (frame_keeps "" st st1 b0 a Hwf Hin Hf) in Hkeep; [lra | | ]; assumption.
Qed.

(** C3, as amended.  When the shot that passes [x = 420] while above
    ground is the last of the active collection in iteration order,
    [updateShots] returns the marks ["N/A (>420)"] and ["N/A"] with
    [y = 0.0] in that turn, the guard of [run] holds, and the summary
    texts are set to the two marks. *)
Theorem off_window_summary (key : string) (st : run_state)
        (l : list ShotTracker.t) (s : ShotTracker.t) :
  shots (app st) = l ++ [s] ->
  0 < ShotTracker.getY (ShotTracker.update (1 / 120) s) ->
  420 < ShotTracker.getX (ShotTracker.update (1 / 120) s) ->
  fst (updateShots (1 / 120) (app st))
  = (PStr "N/A (>420)", PFloat 0, PStr "N/A")
  /\ landed_test (PStr "N/A (>420)") (PFloat 0) = Some true
  /\ exists b st1,
       frame key st = Some (b, st1)
       /\ text (finPos st1) = PStr "N/A (>420)"
       /\ text (finVel st1) = PStr "N/A".
Proof.
  intros E Hy Hx.
  assert (Hr : fst (updateShots (1 / 120) (app st))
               = (PStr "N/A (>420)", PFloat 0, PStr "N/A")).
  { rewrite (updateShots_snoc (1 / 120) (app st) l s initial_locals E).
    rewrite visit_off_window by assumption. reflexivity. }
  assert (Hg : landed_test (PStr "N/A (>420)") (PFloat 0) = Some true).
  { unfold landed_test. simpl. f_equal. apply Rleb_true. lra. }
  split; [exact Hr|]. split; [exact Hg|].
  destruct (frame_defined key st) as (b & st1 & Hf).
  exists b, st1. split; [exact Hf|].
  destruct (frame_spec key st st1 b Hf) as (c & Hc & Hp & Hv & _).
  rewrite Hr in Hc, Hp, Hv. simpl fst in *. simpl snd in *.
  rewrite Hg in Hc. inversion Hc; subst c.
  rewrite Hp, Hv. split; reflexivity.
Qed.

(** The sample tracker beyond the window, iterated last. *)
Lemma off_window_summary_witness :
  exists b st1,
    frame "" (run_with [shot_inside; shot_beyond] 2) = Some (b, st1)
    /\ text (finPos st1) = PStr "N/A (>420)"
    /\ text (finVel st1) = PStr "N/A".
Proof.
  destruct shot_beyond_position as [Hy Hx].
  apply (off_window_summary "" (run_with [shot_inside; shot_beyond] 2)
           [shot_inside] shot_beyond eq_refl Hy Hx).
Defined.

(** C3 as first stated fails in the session [two_shot_keys]: in the
    turn after the last key the first shot passes 420 above ground,
    but the second shot, still in flight, is iterated after it; the
    guard of [run] is false and the summary stays empty, while the
    first shot leaves the collection for good. *)
Lemma off_window_summary_counterexample :
  ~ (forall (st st1 : run_state) (s : ShotTracker.t) (b : bool),
        run two_shot_keys init = Some (true, st) ->
        In s (shots (app st)) ->
        0 < ShotTracker.getY (ShotTracker.update (1 / 120) s) ->
        420 < ShotTracker.getX (ShotTracker.update (1 / 120) s) ->
        frame "" st = Some (b, st1) ->
        text (finPos st1) = PStr "N/A (>420)"
        /\ text (finVel st1) = PStr "N/A").
Proof.
  intros H.
  destruct two_shot_session
    as (st & a & b & Hrun & Hsh & _ & _ & _ & Hfp & _ & Hy & Hx & Hfl & Hyb).
  destruct (frame_defined "" st) as (b0 & st1 & Hf).
  assert (Hin : In a (shots (app st))) by (rewrite Hsh; left; reflexivity).
  destruct (H st st1 a b0 Hrun Hin Hy Hx Hf) as [Hp _].
  destruct (frame_spec "" st st1 b0 Hf) as (c & Hc & Hp1 & _).
  rewrite guard_false in Hc.
  - inversion Hc; subst c. rewrite Hp1, Hfp in Hp. discriminate Hp.
  - right. exists [a], b. split; [exact Hsh|]. split; assumption.
Qed.

End RunClaims.

(** * Beyond the claims: the flight of a [Projectile] *)

Section Flight.

Import Projectile.

Lemma motion_update (time : R) (p : t) :
  motion (update time p)
  = (xpos p + time * xvel p,
     ypos p + yvel p * time - 4.9 * time ^ 2,
     xvel p,
     yvel p - 9.8 * time).
Proof.
  unfold motion, update.
  cbn [xpos ypos xvel yvel]. decimals.
  apply f_equal2; [apply f_equal2; [apply f_equal2|]|];
    try reflexivity; field.
Qed.

Lemma motion_update_twice (a b : R) (p : t) :
  motion (update b (update a p)) = motion (update (a + b) p).
Proof.
  rewrite (motion_update b), (motion_update (a + b)).
  pose proof (motion_is _ _ _ _ _ (motion_update a p)) as (Hx & Hy & Hvx & Hvy).
  rewrite Hx, Hy, Hvx, Hvy. decimals.
  apply f_equal2; [apply f_equal2; [apply f_equal2|]|];
    try reflexivity; field.
Qed.

Lemma motion_updates (times : list R) (p : t) :
  motion (updates times p) = motion (update (Rsum times) p).
Proof.
  revert p. induction times as [|a times IH]; intros p.
  - cbn [updates fold_left Rsum fold_right].
    rewrite motion_update. unfold motion. decimals.
    apply f_equal2; [apply f_equal2; [apply f_equal2|]|];
      try reflexivity; field.
  - rewrite updates_cons, IH, motion_update_twice. reflexivity.
Qed.

(** X1.  Only the total time counts: any run of [update] calls moves
    the projectile as one call with the sum of the steps does.  So two
    calls are one call with the sum, a step of zero changes nothing,
    and a step of [-t] takes back a step of [t]. *)
Theorem update_additive :
  (forall (times : list R) (p : t),
      motion (updates times p) = motion (update (Rsum times) p))
  /\ (forall (a b : R) (p : t),
        motion (update b (update a p)) = motion (update (a + b) p))
  /\ (forall p : t, motion (update 0 p) = motion p)
  /\ (forall (time : R) (p : t),
        motion (update (- time) (update time p)) = motion p).
Proof.
  assert (H0 : forall p, motion (update 0 p) = motion p).
  { intros p. rewrite motion_update. unfold motion. decimals.
    apply f_equal2; [apply f_equal2; [apply f_equal2|]|];
      try reflexivity; field. }
  split; [exact motion_updates|]. split; [exact motion_update_twice|].
  split; [exact H0|].
  intros time p. rewrite motion_update_twice.
  replace (time + - time) with 0 by ring. apply H0.
Qed.

Lemma energy_update (time : R) (p : t) : energy (update time p) = energy p.
Proof.
  unfold energy.
  pose proof (motion_is _ _ _ _ _ (motion_update time p)) as (Hx & Hy & Hvx & Hvy).
  rewrite Hy, Hvx, Hvy. decimals. field.
Qed.

Lemma energy_updates (times : list R) (p : t) :
  energy (updates times p) = energy p.
Proof.
  revert p. induction times as [|a times IH]; intros p; [reflexivity|].
  rewrite updates_cons, IH. apply energy_update.
Qed.

Lemma getVel_sqr (p : t) : fst (getVel p) ^ 2 = xvel p ^ 2 + yvel p ^ 2.
Proof.
  unfold getVel. cbn [fst]. rewrite <- Rsqr_pow2. unfold Rsqr.
  apply sqrt_sqrt. nra.
Qed.

Lemma getVel_nonneg (p : t) : 0 <= fst (getVel p).
Proof. unfold getVel. cbn [fst]. apply sqrt_pos. Qed.

(** X2.  [update] conserves energy exactly: after any run of [update]
    calls the square of the speed that [getVel] returns has grown by
    [2 * 9.8] times the height lost. *)
Theorem speed_energy (times : list R) (p : t) :
  fst (getVel (updates times p)) ^ 2
  = fst (getVel p) ^ 2 + 2 * 9.8 * (ypos p - ypos (updates times p)).
Proof.
  rewrite !getVel_sqr. pose proof (energy_updates times p) as H.
  unfold energy in H. lra.
Qed.

(** X3.  A projectile that is no higher than it started is no slower
    than it started; back at its starting height it has its starting
    speed.  For a shot that has come down to the ground the final
    speed is the launch speed or more. *)
Theorem speed_at_lower_height (times : list R) (p : t) :
  ypos (updates times p) <= ypos p ->
  fst (getVel p) <= fst (getVel (updates times p))
  /\ (ypos (updates times p) = ypos p ->
      fst (getVel (updates times p)) = fst (getVel p)).
Proof.
  intros Hy.
  pose proof (getVel_sqr p) as H1.
  pose proof (getVel_sqr (updates times p)) as H2.
  pose proof (energy_updates times p) as He. unfold energy in He.
  pose proof (getVel_nonneg p) as N1.
  pose proof (getVel_nonneg (updates times p)) as N2.
  split.
  - apply Rnot_lt_le. intros Hlt. nra.
  - intros E. apply Rle_antisym; apply Rnot_lt_le; intros Hlt; nra.
Qed.

(** Fired level with 3 m/s across and 4.9 m/s up, after one second. *)
Lemma speed_at_lower_height_witness :
  fst (getVel (updates [1] (mk 0 0 3 4.9 None)))
  = fst (getVel (mk 0 0 3 4.9 None)).
Proof.
  assert (E : ypos (updates [1] (mk 0 0 3 4.9 None)) = ypos (mk 0 0 3 4.9 None)).
  { cbn. lra. }
  apply (speed_at_lower_height [1] (mk 0 0 3 4.9 None)); [|exact E].
  rewrite E. apply Rle_refl.
Defined.

(** X4.  However it is stepped, a projectile never rises more than
    [vy^2 / (2 * 9.8)] above where it is. *)
Theorem apex_bound (times : list R) (p : t) :
  ypos (updates times p) <= ypos p + yvel p ^ 2 / (2 * 9.8).
Proof.
  pose proof (energy_updates times p) as He. unfold energy in He.
  assert (Hv : xvel (updates times p) = xvel p).
  { pose proof (motion_updates times p) as Hm. rewrite motion_update in Hm.
    apply motion_is in Hm. apply Hm. }
  rewrite Hv in He.
  assert (Hsq : 0 <= yvel (updates times p) ^ 2) by (apply pow2_ge_0).
  apply Rmult_le_reg_l with (2 * 9.8); [lra|].
  replace (2 * 9.8 * (ypos p + yvel p ^ 2 / (2 * 9.8)))
    with (2 * 9.8 * ypos p + yvel p ^ 2) by (decimals; field).
  lra.
Qed.

(** X5.  A projectile on the ground that has been stepped for a total
    time [T > 0] is above ground exactly when [T < vy / 4.9], that is
    for less than [2 * vy / 9.8] seconds. *)
Theorem time_of_flight (times : list R) (p : t) :
  ypos p = 0 ->
  0 < Rsum times ->
  (0 < ypos (updates times p) <-> Rsum times < yvel p / 4.9).
Proof.
  intros H0 HT.
  pose proof (motion_updates times p) as Hm. rewrite motion_update in Hm.
  apply motion_is in Hm. destruct Hm as (_ & Hy & _ & _).
  rewrite Hy, H0.
  assert (E : 0 + yvel p * Rsum times - 4.9 * Rsum times ^ 2
              = Rsum times * 4.9 * (yvel p / 4.9 - Rsum times))
    by (decimals; field).
  rewrite E. split; intros H.
  - apply Rnot_le_lt. intros Hle.
    assert (Rsum times * 4.9 * (yvel p / 4.9 - Rsum times) <= 0) by nra. lra.
  - apply Rmult_lt_0_compat; lra.
Qed.

(** The default shot, 40 m/s straight up, after two steps of one
    second. *)
Lemma time_of_flight_witness :
  0 < ypos (updates [1; 1] (mk 0 0 0 40 None)).
Proof.
  apply (time_of_flight [1; 1] (mk 0 0 0 40 None)).
  - reflexivity.
  - simpl. lra.
  - simpl. lra.
Defined.

End Flight.

(** * Beyond the claims: what a [ShotTracker] shows *)

Section Overlay.

Variable dt : R.
Variable s : ShotTracker.t.

(** The position after the advance, the shift of the graphics and the
    test of [update] on the overlay. *)
Let X : R := ShotTracker.getX (ShotTracker.update dt s).
Let Y : R := ShotTracker.getY (ShotTracker.update dt s).
Let dx : R := X - px (center (ShotTracker.marker s)).
Let dy : R := Y - py (center (ShotTracker.marker s)).
Let visible : bool := Rleb 0 Y && Rleb X 420.



Lemma tracker_update_drawn :
  map text_drawn (labels (ShotTracker.update dt s))
  = map (fun b => b && visible) (map text_drawn (labels s)).
Proof.
  subst visible X Y. rewrite tracker_update_getX, tracker_update_getY.
  unfold ShotTracker.update. cbn.
  match goal with |- context [if ?c then _ else _] => destruct c end;
    cbn; rewrite ?andb_true_r, ?andb_false_r; reflexivity.
Qed.

Lemma tracker_update_texts :
  map text (labels (ShotTracker.update dt s))
  = [text (ShotTracker.statX s);
     PFloat (round1 X);
     text (ShotTracker.statY s);
     if visible then PFloat (round1 Y) else text (ShotTracker.statYval s);
     text (ShotTracker.statV s);
     PFloat (round1 (fst (ShotTracker.getVel (ShotTracker.update dt s))))].
Proof.
  subst visible X Y. rewrite tracker_update_getX, tracker_update_getY.
  unfold ShotTracker.update. cbn.
  match goal with |- context [if ?c then _ else _] => destruct c end;
    reflexivity.
Qed.

End Overlay.




Lemma init_in_formation (id : nat) (angle velocity height : R) :
  in_formation (ShotTracker.init id angle velocity height).
Proof.
  unfold in_formation, ShotTracker.init, labels, label_offsets.
  cbn. split; reflexivity.
Qed.


(** X8.  While the shot is on or above the ground and not beyond 420,
    [update] makes the three value labels show the position and the
    speed rounded to one decimal, and it draws or undraws nothing. *)
Theorem overlay_shows_state (dt : R) (s : ShotTracker.t) :
  0 <= ShotTracker.getY (ShotTracker.update dt s) ->
  ShotTracker.getX (ShotTracker.update dt s) <= 420 ->
  map text (labels (ShotTracker.update dt s))
  = [text (ShotTracker.statX s);
     PFloat (round1 (ShotTracker.getX (ShotTracker.update dt s)));
     text (ShotTracker.statY s);
     PFloat (round1 (ShotTracker.getY (ShotTracker.update dt s)));
     text (ShotTracker.statV s);
     PFloat (round1 (fst (ShotTracker.getVel (ShotTracker.update dt s))))]
  /\ map text_drawn (labels (ShotTracker.update dt s))
     = map text_drawn (labels s)
  /\ circle_drawn (ShotTracker.marker (ShotTracker.update dt s))
     = circle_drawn (ShotTracker.marker s).
Proof.
  intros Hy Hx. apply Rleb_true in Hy. apply Rleb_true in Hx.
  rewrite tracker_update_texts, tracker_update_drawn, Hy, Hx.
  split; [reflexivity|]. split; [|apply tracker_update_marker_drawn].
  cbn [andb].
  rewrite (map_ext (fun b : bool => b && true) (fun b => b) andb_true_r).
  apply map_id.
Qed.

Lemma undrawn_kept (dt : R) (s : ShotTracker.t) :
  Forall (fun b => b = false) (map text_drawn (labels s)) ->
  Forall (fun b => b = false)
         (map text_drawn (labels (ShotTracker.update dt s))).
Proof.
  intros H. rewrite tracker_update_drawn. apply Forall_map.
  eapply Forall_impl; [|exact H]. intros b Hb. cbn beta. rewrite Hb.
  reflexivity.
Qed.

Lemma undrawn_out_of_range (dt : R) (s : ShotTracker.t) :
  ShotTracker.getY (ShotTracker.update dt s) < 0
  \/ 420 < ShotTracker.getX (ShotTracker.update dt s) ->
  Forall (fun b => b = false)
         (map text_drawn (labels (ShotTracker.update dt s))).
Proof.
  intros H. rewrite tracker_update_drawn.
  assert (E : Rleb 0 (ShotTracker.getY (ShotTracker.update dt s))
              && Rleb (ShotTracker.getX (ShotTracker.update dt s)) 420 = false).
  { apply andb_false_iff. destruct H as [H | H]; [left | right];
      apply Rleb_false; exact H. }
  rewrite E. apply Forall_map. apply Forall_forall. intros b _.
  apply andb_false_r.
Qed.

(** X9.  Once [update] has found the shot below ground or beyond 420
    it undraws the six labels, and no later [update] draws them
    again, wherever the shot goes. *)
Theorem overlay_never_returns (dt : R) (s : ShotTracker.t) (times : list R) :
  ShotTracker.getY (ShotTracker.update dt s) < 0
  \/ 420 < ShotTracker.getX (ShotTracker.update dt s) ->
  Forall (fun t => text_drawn t = false)
         (labels (tracker_updates times (ShotTracker.update dt s))).
Proof.
  intros H.
  refine (proj1 (Forall_map text_drawn (fun b => b = false) _) _).
  unfold tracker_updates.
  generalize (undrawn_out_of_range dt s H).
  generalize (ShotTracker.update dt s). clear H.
  induction times as [|a times IH]; intros s0 H0; [exact H0|].
  cbn [fold_left]. apply IH. apply undrawn_kept. exact H0.
Qed.

(** ** The other sample trackers after one advance by 1/120 s *)

Lemma shot_inside_position :
  80 < ShotTracker.getY (ShotTracker.update (1 / 120) shot_inside)
  /\ ShotTracker.getX (ShotTracker.update (1 / 120) shot_inside) < 420.
Proof.
  rewrite tracker_update_getX, tracker_update_getY.
  unfold shot_inside, tracker_at, Projectile.update; simpl. lra.
Qed.

Lemma shot_grazing_position :
  0 < ShotTracker.getY (ShotTracker.update (1 / 120) shot_grazing)
  /\ ShotTracker.getY (ShotTracker.update (1 / 120) shot_grazing) < 0.05
  /\ ShotTracker.getX (ShotTracker.update (1 / 120) shot_grazing) < 420.
Proof.
  rewrite tracker_update_getX, tracker_update_getY.
  unfold shot_grazing, tracker_at, Projectile.update; simpl. lra.
Qed.

Lemma shot_landing_position :
  ShotTracker.getY (ShotTracker.update (1 / 120) shot_landing) < 0
  /\ ShotTracker.getX (ShotTracker.update (1 / 120) shot_landing) < 420.
Proof.
  rewrite tracker_update_getX, tracker_update_getY.
  unfold shot_landing, tracker_at, Projectile.update; simpl. lra.
Qed.

(** The sample tracker in mid-flight keeps its labels as they are. *)
Lemma overlay_shows_state_witness :
  map text_drawn (labels (ShotTracker.update (1 / 120) shot_inside))
  = map text_drawn (labels shot_inside).
Proof.
  destruct shot_inside_position as [Hy Hx].
  apply (overlay_shows_state (1 / 120) shot_inside); lra.
Defined.

(** The sample tracker beyond the window, advanced twice more. *)
Lemma overlay_never_returns_witness :
  Forall (fun t => text_drawn t = false)
         (labels (tracker_updates [1 / 120; 1 / 120]
                    (ShotTracker.update (1 / 120) shot_beyond))).
Proof.
  apply (overlay_never_returns (1 / 120) shot_beyond [1 / 120; 1 / 120]).
  right. apply shot_beyond_position.
Defined.

(** * Beyond the claims: what [updateShots] and [run] leave on the window *)

Section Window.

Import ProjectileApp.

Lemma labels_seen (dt : R) (s : ShotTracker.t) :
  labels (ShotTracker.undraw (seen dt s)) = labels (ShotTracker.update dt s).
Proof. reflexivity. Qed.

(** What the loop body does with a shot that is not in flight. *)
Lemma visit_retired (dt : R) (vars : locals) (s : ShotTracker.t) :
  ShotTracker.getY (ShotTracker.update dt s) <= 0
  \/ 420 <= ShotTracker.getX (ShotTracker.update dt s) ->
  alive (fst (visit dt vars s)) = alive vars
  /\ snd (visit dt vars s) = ShotTracker.undraw (seen dt s).
Proof.
  intros H.
  destruct (position_cases dt s) as [[Hy Hx] | [[Hy Hx] | Hc]].
  - lra.
  - rewrite visit_off_window by assumption. split; reflexivity.
  - rewrite visit_landed by assumption. split; reflexivity.
Qed.

(** X10.  A shot that the advance takes below ground or beyond 420
    leaves nothing on the window: the loop body does not keep it, and
    its marker and its six labels are undrawn. *)
Theorem retired_shot_cleared (dt : R) (vars : locals) (s : ShotTracker.t) :
  ShotTracker.getY (ShotTracker.update dt s) < 0
  \/ 420 < ShotTracker.getX (ShotTracker.update dt s) ->
  alive (fst (visit dt vars s)) = alive vars
  /\ circle_drawn (ShotTracker.marker (snd (visit dt vars s))) = false
  /\ Forall (fun t => text_drawn t = false) (labels (snd (visit dt vars s))).
Proof.
  intros H.
  destruct (visit_retired dt vars s) as [Ha Hs]; [destruct H; lra|].
  rewrite Ha, Hs, labels_seen. split; [reflexivity|]. split; [reflexivity|].
  refine (proj1 (Forall_map text_drawn (fun b => b = false) _) _).
  apply undrawn_out_of_range. exact H.
Qed.

(** The sample tracker that comes down below ground. *)
Lemma retired_shot_cleared_witness :
  Forall (fun t => text_drawn t = false)
         (labels (snd (visit (1 / 120) initial_locals shot_landing))).
Proof.
  apply (retired_shot_cleared (1 / 120) initial_locals shot_landing).
  left. apply shot_landing_position.
Defined.

(** X11.  A shot that the advance puts exactly on the ground, or
    exactly at 420 while not below ground, is dropped by the loop body
    and its marker is undrawn, but [ShotTracker.update] still counts it
    as in range: labels that were drawn stay drawn, so they remain on
    the window after the shot has left the collection. *)
Theorem boundary_shot_keeps_labels (dt : R) (vars : locals)
        (s : ShotTracker.t) :
  Forall (fun t => text_drawn t = true) (labels s) ->
  (ShotTracker.getY (ShotTracker.update dt s) = 0
   /\ ShotTracker.getX (ShotTracker.update dt s) <= 420)
  \/ (0 <= ShotTracker.getY (ShotTracker.update dt s)
      /\ ShotTracker.getX (ShotTracker.update dt s) = 420) ->
  alive (fst (visit dt vars s)) = alive vars
  /\ circle_drawn (ShotTracker.marker (snd (visit dt vars s))) = false
  /\ Forall (fun t => text_drawn t = true) (labels (snd (visit dt vars s))).
Proof.
  intros Hd H.
  destruct (visit_retired dt vars s) as [Ha Hs]; [destruct H; lra|].
  rewrite Ha, Hs, labels_seen. split; [reflexivity|]. split; [reflexivity|].
  refine (proj1 (Forall_map text_drawn (fun b => b = true) _) _).
  rewrite tracker_update_drawn.
  assert (E : Rleb 0 (ShotTracker.getY (ShotTracker.update dt s))
              && Rleb (ShotTracker.getX (ShotTracker.update dt s)) 420 = true).
  { apply andb_true_iff. rewrite !Rleb_true. destruct H; lra. }
  rewrite E. apply Forall_map. apply Forall_map.
  eapply Forall_impl; [|exact Hd]. intros t Ht. cbn beta. rewrite Ht.
  reflexivity.
Qed.

(** The sample tracker that reaches [x = 420] exactly, above ground. *)
Lemma boundary_shot_keeps_labels_witness :
  circle_drawn (ShotTracker.marker
                  (snd (visit (1 / 120) initial_locals shot_boundary))) = false
  /\ Forall (fun t => text_drawn t = true)
            (labels (snd (visit (1 / 120) initial_locals shot_boundary))).
Proof.
  assert (Hd : Forall (fun t => text_drawn t = true) (labels shot_boundary))
    by (repeat constructor).
  destruct shot_boundary_position as [Hy Hx].
  apply (boundary_shot_keeps_labels (1 / 120) initial_locals shot_boundary Hd).
  right. lra.
Defined.

(** X12.  [updateShots] treats every shot on its own and keeps the
    order: the collection rebuilt from two collections put end to end
    is the two rebuilt collections put end to end, every shot left is
    a shot of before advanced by [dt], and none is added. *)
Theorem updateShots_independent (dt : R) (la : Launcher.t) (ia iv : Text)
        (l1 l2 : list ShotTracker.t) :
  shots (snd (updateShots dt (mk la ia iv (l1 ++ l2))))
  = shots (snd (updateShots dt (mk la ia iv l1)))
    ++ shots (snd (updateShots dt (mk la ia iv l2)))
  /\ (forall s', In s' (shots (snd (updateShots dt (mk la ia iv l1)))) <->
                 exists s, In s l1 /\ s' = seen dt s
                           /\ 0 < ShotTracker.getY (ShotTracker.update dt s)
                           /\ ShotTracker.getX (ShotTracker.update dt s) < 420)
  /\ (List.length (shots (snd (updateShots dt (mk la ia iv l1))))
      <= List.length l1)%nat.
Proof.
  rewrite !updateShots_shots. cbn [shots]. split; [|split].
  - rewrite map_app, filter_app. reflexivity.
  - intros s'. rewrite filter_In, in_map_iff. split.
    + intros [(s & E & Hin) Hfl]. subst s'. exists s.
      apply in_flight_seen in Hfl. tauto.
    + intros (s & Hin & E & Hy & Hx). subst s'. split; [eauto|].
      apply in_flight_seen. tauto.
  - rewrite <- (length_map (seen dt) l1). apply filter_length_le.
Qed.

(** ** When the summary changes *)

Lemma round_half_even_zero (q : R) :
  0 <= q <= 1 / 2 -> round_half_even q = 0%Z.
Proof.
  intros [H0 H1]. unfold round_half_even, frac_part.
  destruct (base_Int_part q) as [B1 B2].
  assert (Hf : Int_part q = 0%Z).
  { assert (Ha : (Int_part q < 1)%Z) by (apply lt_IZR; lra).
    assert (Hb : (-1 < Int_part q)%Z) by (apply lt_IZR; lra). lia. }
  rewrite Hf. cbn [IZR].
  destruct (Rlt_dec (q - 0) (1 / 2)); [reflexivity|].
  destruct (Rlt_dec (1 / 2) (q - 0)); [lra | reflexivity].
Qed.

(** A value from 0 to 0.05 is displayed as 0.0. *)
Lemma round1_zero (r : R) : 0 <= r <= 0.05 -> round1 r = 0.
Proof.
  intros H. unfold round1. rewrite round_half_even_zero by (split; lra).
  cbn [IZR]. lra.
Qed.

Lemma frame_stays (key : string) (st st1 : run_state) (b : bool)
      (s : ShotTracker.t) :
  In s (shots (app st)) ->
  in_flight (seen (1 / 120) s) = true ->
  frame key st = Some (b, st1) ->
  In (ShotTracker.oid s) (oids (shots (app st1))).
Proof.
  intros Hin Hfl Hf.
  destruct (frame_spec key st st1 b Hf) as (c & _ & _ & _ & Hs).
  assert (H : In (ShotTracker.oid s)
                 (oids (shots (snd (updateShots (1 / 120) (app st)))))).
  { rewrite updateShots_shots, <- (seen_oid (1 / 120) s). unfold oids.
    apply in_map. apply filter_In. split; [apply in_map; exact Hin|exact Hfl]. }
  destruct Hs as [[Hs _] | [Hs _]]; rewrite Hs; [exact H|].
  apply in_or_app. left. exact H.
Qed.

(** X13.  The guard of [run] looks at the rounded height.  When the
    last shot in iteration order is still in flight, the summary is
    left alone if the shot is more than 0.05 above ground; if it is
    0.05 or less above ground the summary already takes its rounded
    distance and speed, a turn or more before it lands, and the shot
    stays in the collection. *)
Theorem in_flight_summary (key : string) (st : run_state)
        (l : list ShotTracker.t) (s : ShotTracker.t) :
  shots (app st) = l ++ [s] ->
  0 < ShotTracker.getY (ShotTracker.update (1 / 120) s) ->
  ShotTracker.getX (ShotTracker.update (1 / 120) s) < 420 ->
  exists b st1,
    frame key st = Some (b, st1)
    /\ In (ShotTracker.oid s) (oids (shots (app st1)))
    /\ (0.05 < ShotTracker.getY (ShotTracker.update (1 / 120) s) ->
        finPos st1 = finPos st /\ finVel st1 = finVel st)
    /\ (ShotTracker.getY (ShotTracker.update (1 / 120) s) <= 0.05 ->
        text (finPos st1)
        = PFloat (round1 (ShotTracker.getX (ShotTracker.update (1 / 120) s)))
        /\ text (finVel st1)
           = PFloat (round1 (fst (ShotTracker.getVel
                                    (ShotTracker.update (1 / 120) s))))).
Proof.
  intros E Hy Hx.
  destruct (frame_defined key st) as (b & st1 & Hf).
  exists b, st1. split; [exact Hf|].
  assert (Hfl : in_flight (seen (1 / 120) s) = true)
    by (apply in_flight_seen; split; assumption).
  split.
  { apply (frame_stays key st st1 b s); try assumption.
    rewrite E. apply in_or_app. right. left. reflexivity. }
  destruct (frame_spec key st st1 b Hf) as (c & Hc & Hp & Hv & _).
  split.
  - intros Hhigh. rewrite guard_false in Hc.
    + inversion Hc; subst c. split; assumption.
    + right. exists l, s. split; [exact E|]. split; [exact Hfl | exact Hhigh].
  - intros Hlow.
    rewrite (updateShots_snoc (1 / 120) (app st) l s initial_locals E)
      in Hc, Hp, Hv.
    rewrite visit_in_flight in Hc, Hp, Hv by assumption.
    cbn [fst snd x y v] in Hc, Hp, Hv.
    rewrite (round1_zero (ShotTracker.getY (ShotTracker.update (1 / 120) s)))
      in Hc by (split; lra).
    unfold landed_test in Hc. cbn [py_ne_str py_le] in Hc.
    assert (Hle : Rleb 0 0 = true) by (apply Rleb_true; lra).
    rewrite Hle in Hc. inversion Hc; subst c.
    rewrite Hp, Hv. split; reflexivity.
Qed.

(** The sample tracker 0.03 m above ground, alone in the collection. *)
Lemma in_flight_summary_witness :
  exists b st1,
    frame "" (run_with [shot_grazing] 1) = Some (b, st1)
    /\ In (ShotTracker.oid shot_grazing) (oids (shots (app st1)))
    /\ text (finPos st1)
       = PFloat (round1 (ShotTracker.getX
                           (ShotTracker.update (1 / 120) shot_grazing))).
Proof.
  destruct shot_grazing_position as (Hy & Hy' & Hx).
  destruct (in_flight_summary "" (run_with [shot_grazing] 1) [] shot_grazing
              eq_refl Hy Hx) as (b & st1 & Hf & Hin & _ & Hlow).
  exists b, st1. split; [exact Hf|]. split; [exact Hin|].
  apply Hlow. lra.
Defined.

(** X14.  When the last shot in iteration order has landed, or sits at
    420 exactly, [updateShots] returns its rounded distance, 0.0 and
    its rounded speed, and [run] writes the distance and the speed into
    the summary. *)
Theorem landing_summary (key : string) (st : run_state)
        (l : list ShotTracker.t) (s : ShotTracker.t) :
  shots (app st) = l ++ [s] ->
  ShotTracker.getY (ShotTracker.update (1 / 120) s) <= 0
  \/ ShotTracker.getX (ShotTracker.update (1 / 120) s) = 420 ->
  fst (updateShots (1 / 120) (app st))
  = (PFloat (round1 (ShotTracker.getX (ShotTracker.update (1 / 120) s))),
     PFloat 0,
     PFloat (round1 (fst (ShotTracker.getVel (ShotTracker.update (1 / 120) s)))))
  /\ exists b st1,
       frame key st = Some (b, st1)
       /\ text (finPos st1)
          = PFloat (round1 (ShotTracker.getX (ShotTracker.update (1 / 120) s)))
       /\ text (finVel st1)
          = PFloat (round1 (fst (ShotTracker.getVel
                                   (ShotTracker.update (1 / 120) s)))).
Proof.
  intros E H.
  assert (Hr : fst (updateShots (1 / 120) (app st))
               = (PFloat (round1 (ShotTracker.getX
                                    (ShotTracker.update (1 / 120) s))),
                  PFloat 0,
                  PFloat (round1 (fst (ShotTracker.getVel
                                         (ShotTracker.update (1 / 120) s)))))).
  { rewrite (updateShots_snoc (1 / 120) (app st) l s initial_locals E).
    rewrite visit_landed by assumption. reflexivity. }
  split; [exact Hr|].
  destruct (frame_defined key st) as (b & st1 & Hf).
  exists b, st1. split; [exact Hf|].
  destruct (frame_spec key st st1 b Hf) as (c & Hc & Hp & Hv & _).
  rewrite Hr in Hc, Hp, Hv. cbn [fst snd] in Hc, Hp, Hv.
  unfold landed_test in Hc. cbn [py_ne_str py_le] in Hc.
  assert (Hle : Rleb 0 0 = true) by (apply Rleb_true; lra).
  rewrite Hle in Hc. inversion Hc; subst c.
  rewrite Hp, Hv. split; reflexivity.
Qed.

(** The sample tracker that comes down below ground, iterated last. *)
Lemma landing_summary_witness :
  exists b st1,
    frame "" (run_with [shot_inside; shot_landing] 2) = Some (b, st1)
    /\ text (finPos st1)
       = PFloat (round1 (ShotTracker.getX
                           (ShotTracker.update (1 / 120) shot_landing))).
Proof.
  destruct shot_landing_position as [Hy Hx].
  destruct (landing_summary "" (run_with [shot_inside; shot_landing] 2)
              [shot_inside] shot_landing eq_refl (or_introl (Rlt_le _ _ Hy)))
    as (_ & b & st1 & Hf & Hp & _).
  exists b, st1. split; assumption.
Defined.

End Window.

(** * Beyond the claims: the aim of the [Launcher] *)

Section Aim.

(** The arrow that [redraw] leaves: from the origin to the tip of the
    velocity vector. *)
Lemma redraw_arrow (l : Launcher.t) :
  Launcher.arrow (Launcher.redraw l)
  = mkLine (mkPoint 0 0)
           (mkPoint (Launcher.vel l * cos (Launcher.angle l))
                    (Launcher.vel l * sin (Launcher.angle l)))
           "last" 3 true
  /\ Launcher.angle (Launcher.redraw l) = Launcher.angle l
  /\ Launcher.vel (Launcher.redraw l) = Launcher.vel l.
Proof. repeat split. Qed.

Lemma adjust_aim (a : adjustment) (l : Launcher.t) :
  Launcher.angle (adjust a l)
  = Launcher.angle l + radians (angle_total [a])
  /\ Launcher.vel (adjust a l) = Launcher.vel l + vel_total [a].
Proof.
  destruct a as [amt | amt];
    unfold adjust, Launcher.adjAngle, Launcher.adjVel, Launcher.redraw,
      angle_total, vel_total, Rsum, radians;
    cbn [Launcher.angle Launcher.vel map fold_right]; split; lra.
Qed.

Lemma totals_cons (a : adjustment) (adjs : list adjustment) :
  angle_total (a :: adjs) = angle_total [a] + angle_total adjs
  /\ vel_total (a :: adjs) = vel_total [a] + vel_total adjs.
Proof.
  unfold angle_total, vel_total, Rsum. cbn [map fold_right]. split; lra.
Qed.

Lemma adjusts_aim (adjs : list adjustment) (l : Launcher.t) :
  Launcher.angle (adjusts adjs l)
  = Launcher.angle l + radians (angle_total adjs)
  /\ Launcher.vel (adjusts adjs l) = Launcher.vel l + vel_total adjs.
Proof.
  revert l. induction adjs as [|a adjs IH]; intros l.
  - unfold adjusts, angle_total, vel_total, Rsum, radians.
    cbn [fold_left map fold_right]. split; lra.
  - cbn [adjusts fold_left]. destruct (IH (adjust a l)) as [Ha Hv].
    unfold adjusts in Ha, Hv. rewrite Ha, Hv.
    destruct (adjust_aim a l) as [Ha1 Hv1]. rewrite Ha1, Hv1.
    destruct (totals_cons a adjs) as [Ta Tv]. rewrite Ta, Tv.
    rewrite radians_plus. split; lra.
Qed.

Lemma adjust_arrow (a : adjustment) (l : Launcher.t) :
  Launcher.arrow (adjust a l)
  = mkLine (mkPoint 0 0)
      (mkPoint (Launcher.vel (adjust a l) * cos (Launcher.angle (adjust a l)))
               (Launcher.vel (adjust a l) * sin (Launcher.angle (adjust a l))))
      "last" 3 true.
Proof. destruct a; reflexivity. Qed.

Lemma adjusts_arrow (adjs : list adjustment) (l : Launcher.t) :
  Launcher.arrow l
  = mkLine (mkPoint 0 0)
      (mkPoint (Launcher.vel l * cos (Launcher.angle l))
               (Launcher.vel l * sin (Launcher.angle l)))
      "last" 3 true ->
  Launcher.arrow (adjusts adjs l)
  = mkLine (mkPoint 0 0)
      (mkPoint (Launcher.vel (adjusts adjs l)
                * cos (Launcher.angle (adjusts adjs l)))
               (Launcher.vel (adjusts adjs l)
                * sin (Launcher.angle (adjusts adjs l))))
      "last" 3 true.
Proof.
  revert l. induction adjs as [|a adjs IH]; intros l H; [exact H|].
  cbn [adjusts fold_left]. apply IH. apply adjust_arrow.
Qed.

Lemma tip_length (r a : R) :
  sqrt ((r * cos a) ^ 2 + (r * sin a) ^ 2) = Rabs r.
Proof.
  rewrite <- sqrt_Rsqr_abs. f_equal.
  pose proof (sin2_cos2 a) as H. unfold Rsqr in *. nra.
Qed.

(** X15.  In exact arithmetic the aim is the sum of the adjustments,
    in any order and without bounds: after any run of [adjAngle] and
    [adjVel] calls on a new launcher the angle is 45 degrees plus the angle amounts (in
    radians), the velocity is 40 plus the velocity amounts, whatever
    their sign, and the arrow on display runs from the origin to the
    tip of that velocity vector, so its length is the absolute value of
    the velocity. *)
Theorem aim_accumulates (adjs : list adjustment) :
  let l := adjusts adjs Launcher.init in
  Launcher.angle l = radians (45 + angle_total adjs)
  /\ Launcher.vel l = 40 + vel_total adjs
  /\ Launcher.arrow l
     = mkLine (mkPoint 0 0)
              (mkPoint (Launcher.vel l * cos (Launcher.angle l))
                       (Launcher.vel l * sin (Launcher.angle l)))
              "last" 3 true
  /\ sqrt (px (p2 (Launcher.arrow l)) ^ 2 + py (p2 (Launcher.arrow l)) ^ 2)
     = Rabs (Launcher.vel l).
Proof.
  intros l. subst l.
  destruct (adjusts_aim adjs Launcher.init) as [Ha Hv].
  assert (Harrow := adjusts_arrow adjs Launcher.init eq_refl).
  split; [rewrite Ha, radians_plus; reflexivity|].
  split; [rewrite Hv; reflexivity|].
  split; [exact Harrow|].
  rewrite Harrow. cbn [p2 px py]. apply tip_length.
Qed.

Lemma fire_proj (id : nat) (l : Launcher.t) :
  ShotTracker.proj (Launcher.fire id l)
  = Projectile.mk 0 0 (Launcher.vel l * cos (Launcher.angle l))
                  (Launcher.vel l * sin (Launcher.angle l)) None.
Proof.
  unfold Launcher.fire, ShotTracker.init, Projectile.init.
  cbn [ShotTracker.proj]. rewrite radians_degrees. reflexivity.
Qed.

(** X16.  [fire] shoots along the arrow: converting the stored angle
    to degrees and back loses nothing, so the new shot starts at the
    origin with the velocity the launcher holds, which after any
    adjustments is the tip of the arrow on display; its speed is the
    absolute value of the launcher's velocity, and its marker and
    labels are drawn in formation. *)
Theorem fire_follows_arrow (id : nat) (adjs : list adjustment) :
  let l := adjusts adjs Launcher.init in
  let shot := Launcher.fire id l in
  motion (ShotTracker.proj shot)
  = (0, 0, px (p2 (Launcher.arrow l)), py (p2 (Launcher.arrow l)))
  /\ fst (ShotTracker.getVel shot) = Rabs (Launcher.vel l)
  /\ all_drawn shot /\ in_formation shot.
Proof.
  intros l shot. subst shot.
  assert (Harrow := adjusts_arrow adjs Launcher.init eq_refl).
  fold l in Harrow. rewrite Harrow. cbn [p2 px py].
  split; [rewrite fire_proj; reflexivity|].
  split.
  - unfold ShotTracker.getVel. rewrite fire_proj. cbn. 
    rewrite <- (tip_length (Launcher.vel l) (Launcher.angle l)).
    reflexivity.
  - split.
    + unfold all_drawn, Launcher.fire, ShotTracker.init, labels. cbn.
      split; [reflexivity | repeat constructor].
    + apply init_in_formation.
Qed.

End Aim.

(** * Beyond the claims: the loop of [run] *)

Section Keys.

Import ProjectileApp.

(** X17.  [run] never raises: whatever the keys and whatever shots the
    application starts with, the guard [x != "" and y <= 0.0] never
    compares a string with a float, since [y] is a float whenever [x]
    is not the empty string. *)
Theorem run_never_raises (keys : list string) (self : t) :
  (forall dt, exists c,
      landed_test (fst (fst (fst (updateShots dt self))))
                  (snd (fst (fst (updateShots dt self)))) = Some c)
  /\ exists b st, run keys self = Some (b, st).
Proof.
  split.
  - intros dt. apply landed_test_defined.
  - unfold run. apply frames_defined.
Qed.

Lemma frame_quit (key : string) (st : run_state) :
  String.eqb key "q" || String.eqb key "Q" = true ->
  exists st', frame key st = Some (false, st')
              /\ app st' = snd (updateShots (1 / 120) (app st))
              /\ fresh st' = fresh st.
Proof.
  intros Hk. unfold frame.
  destruct (landed_test_defined (1 / 120) (app st)) as (c & Hc).
  destruct (updateShots (1 / 120) (app st)) as [[[x0 y0] v0] app1].
  cbn [fst snd] in *. rewrite Hc, Hk. eexists. split; [reflexivity|].
  split; reflexivity.
Qed.

Lemma frames_quit (keys1 keys2 : list string) (key : string)
      (st : run_state) :
  String.eqb key "q" || String.eqb key "Q" = true ->
  frames (keys1 ++ key :: keys2) st = frames (keys1 ++ [key]) st
  /\ exists st', frames (keys1 ++ [key]) st = Some (false, st').
Proof.
  intros Hk. revert st. induction keys1 as [|k keys1 IH]; intros st.
  - cbn [List.app frames].
    destruct (frame_quit key st Hk) as (st' & Hf & _). rewrite Hf. eauto.
  - cbn [List.app frames].
    destruct (frame_defined k st) as ([|] & st1 & Hf); rewrite Hf.
    + apply IH.
    + eauto.
Qed.

(** X18.  [q] and [Q] end the loop: the keys after the first of them
    are never read, and the run up to it ends with the loop stopped.
    The turn in which the key is read still advances the shots, but it
    changes neither the aim nor the collection otherwise. *)
Theorem quit_stops (keys1 keys2 : list string) (st : run_state) :
  (frames (keys1 ++ "q" :: keys2) st = frames (keys1 ++ ["q"]) st
   /\ exists st', frames (keys1 ++ ["q"]) st = Some (false, st'))
  /\ (frames (keys1 ++ "Q" :: keys2) st = frames (keys1 ++ ["Q"]) st
      /\ exists st', frames (keys1 ++ ["Q"]) st = Some (false, st'))
  /\ (exists st', frame "q" st = Some (false, st')
                  /\ app st' = snd (updateShots (1 / 120) (app st)))
  /\ (exists st', frame "Q" st = Some (false, st')
                  /\ app st' = snd (updateShots (1 / 120) (app st))).
Proof.
  split; [apply frames_quit; reflexivity|].
  split; [apply frames_quit; reflexivity|].
  split.
  - destruct (frame_quit "q" st eq_refl) as (st' & Hf & Ha & _). eauto.
  - destruct (frame_quit "Q" st eq_refl) as (st' & Hf & Ha & _). eauto.
Qed.

Lemma unknown_key_tests (key : string) :
  ~ In key known_keys ->
  String.eqb key "q" = false /\ String.eqb key "Q" = false
  /\ String.eqb key "Up" = false /\ String.eqb key "Down" = false
  /\ String.eqb key "Right" = false /\ String.eqb key "Left" = false
  /\ String.eqb key "f" = false.
Proof.
  intros H. unfold known_keys in H.
  repeat split; apply String.eqb_neq; intros E; apply H; subst key;
    cbn; tauto.
Qed.

(** X19.  The command set is closed: a key other than [q], [Q], [Up],
    [Down], [Right], [Left] and [f] (upper and lower case are
    different keys) does what no key at all does. *)
Theorem unknown_key_ignored (key : string) (st : run_state) :
  ~ In key known_keys -> frame key st = frame "" st.
Proof.
  intros H.
  destruct (unknown_key_tests key H) as (H1 & H2 & H3 & H4 & H5 & H6 & H7).
  unfold frame, handle_key. rewrite H1, H2, H3, H4, H5, H6, H7. reflexivity.
Qed.

(** A capital [F] fires nothing. *)
Lemma unknown_key_ignored_witness :
  frame "F" (run_init init) = frame "" (run_init init).
Proof.
  apply (unknown_key_ignored "F" (run_init init)).
  cbn. intros H. repeat (destruct H as [H | H]; [discriminate H|]). exact H.
Defined.

End Keys.

(** * Beyond the claims: what holds in every state of [run] *)

Section Reachable.

Import ProjectileApp.

Lemma presses_one (k key : string) :
  presses k [key] = if String.eqb key k then 1 else 0.
Proof.
  unfold presses. cbn [count_occ].
  destruct (string_dec key k) as [E | E].
  - subst. rewrite String.eqb_refl. cbn. lra.
  - apply String.eqb_neq in E. rewrite E. reflexivity.
Qed.

Lemma presses_cons (k key : string) (keys : list string) :
  presses k (key :: keys) = presses k [key] + presses k keys.
Proof.
  unfold presses. cbn [count_occ].
  destruct (string_dec key k); [rewrite S_INR; cbn; lra | cbn; lra].
Qed.

(** One turn of the loop for a key other than [q] and [Q], spelt out. *)
Lemma frame_step (key : string) (st : run_state) :
  String.eqb key "q" || String.eqb key "Q" = false ->
  exists st1,
    frame key st = Some (true, st1)
    /\ shots (app st1)
       = filter in_flight (map (seen (1 / 120)) (shots (app st)))
         ++ (if String.eqb key "f"
             then [Launcher.fire (fresh st) (launcher (app st))] else [])
    /\ fresh st1 = (if String.eqb key "f" then S (fresh st) else fresh st)
    /\ Launcher.angle (launcher (app st1))
       = Launcher.angle (launcher (app st))
         + radians (2.5 * (presses "Up" [key] - presses "Down" [key]))
    /\ Launcher.vel (launcher (app st1))
       = Launcher.vel (launcher (app st))
         + (presses "Right" [key] - presses "Left" [key]).
Proof.
  intros Hk. unfold frame.
  destruct (landed_test_defined (1 / 120) (app st)) as (c & Hc).
  rewrite updateShots_eq.
  destruct (fst (updateShots (1 / 120) (app st))) as [[x0 y0] v0].
  cbn [fst snd] in Hc. rewrite Hc, Hk.
  rewrite !presses_one. unfold handle_key.
  destruct (String.eqb key "Up") eqn:E1.
  { apply String.eqb_eq in E1. subst key. eexists. split; [reflexivity|].
    cbn. unfold radians. rewrite app_nil_r. repeat split; lra. }
  destruct (String.eqb key "Down") eqn:E2.
  { apply String.eqb_eq in E2. subst key. eexists. split; [reflexivity|].
    cbn. unfold radians. rewrite app_nil_r. repeat split; lra. }
  destruct (String.eqb key "Right") eqn:E3.
  { apply String.eqb_eq in E3. subst key. eexists. split; [reflexivity|].
    cbn. unfold radians. rewrite app_nil_r. repeat split; lra. }
  destruct (String.eqb key "Left") eqn:E4.
  { apply String.eqb_eq in E4. subst key. eexists. split; [reflexivity|].
    cbn. unfold radians. rewrite app_nil_r. repeat split; lra. }
  destruct (String.eqb key "f") eqn:E5.
  { eexists. split; [reflexivity|].
    cbn. unfold radians. repeat split; lra. }
  eexists. split; [reflexivity|].
  cbn. unfold radians. rewrite app_nil_r. repeat split; lra.
Qed.

Lemma frames_aim (keys : list string) (st : run_state) :
  ~ In "q" keys -> ~ In "Q" keys ->
  exists st',
    frames keys st = Some (true, st')
    /\ Launcher.angle (launcher (app st'))
       = Launcher.angle (launcher (app st))
         + radians (2.5 * (presses "Up" keys - presses "Down" keys))
    /\ Launcher.vel (launcher (app st'))
       = Launcher.vel (launcher (app st))
         + (presses "Right" keys - presses "Left" keys)
    /\ fresh st' = (fresh st + count_occ string_dec keys "f")%nat.
Proof.
  revert st. induction keys as [|key keys IH]; intros st Hq HQ.
  - exists st. unfold presses. cbn [count_occ INR frames].
    replace (2.5 * (0 - 0)) with 0 by lra.
    assert (H0 : radians 0 = 0) by (unfold radians; lra). rewrite H0.
    repeat split; try lra; lia.
  - assert (Hk : String.eqb key "q" || String.eqb key "Q" = false).
    { apply orb_false_iff. split; apply String.eqb_neq; intros E; subst key;
        [apply Hq | apply HQ]; left; reflexivity. }
    destruct (frame_step key st Hk) as (st1 & Hf & _ & Hfr & Ha & Hv).
    destruct (IH st1) as (st' & Hfs & Ha' & Hv' & Hfr');
      [intros H; apply Hq; right; exact H
      |intros H; apply HQ; right; exact H|].
    exists st'. cbn [frames]. rewrite Hf. split; [exact Hfs|].
    rewrite Ha', Hv', Hfr', Ha, Hv, Hfr.
    rewrite (presses_cons "Up" key keys), (presses_cons "Down" key keys),
      (presses_cons "Right" key keys), (presses_cons "Left" key keys).
    replace (2.5 * (presses "Up" [key] + presses "Up" keys
                    - (presses "Down" [key] + presses "Down" keys)))
      with (2.5 * (presses "Up" [key] - presses "Down" [key])
            + 2.5 * (presses "Up" keys - presses "Down" keys)) by lra.
    rewrite radians_plus. split; [lra|]. split; [lra|].
    cbn [count_occ]. destruct (string_dec key "f") as [E | E].
    + subst key. cbn. lia.
    + apply String.eqb_neq in E. rewrite E. lia.
Qed.

(** X20.  In exact arithmetic, until [q] or [Q] is pressed the aim
    depends on the keys alone, not on their order nor on the shots in
    flight: the angle is 45 degrees plus 2.5 for every [Up] and minus 2.5 for every [Down],
    the velocity 40 plus 1 for every [Right] and minus 1 for every
    [Left], and as many trackers have been created as [f] was
    pressed. *)
Theorem aim_after_keys (keys : list string) :
  ~ In "q" keys -> ~ In "Q" keys ->
  exists st,
    run keys init = Some (true, st)
    /\ Launcher.angle (launcher (app st))
       = radians (45 + 2.5 * (presses "Up" keys - presses "Down" keys))
    /\ Launcher.vel (launcher (app st))
       = 40 + presses "Right" keys - presses "Left" keys
    /\ fresh st = count_occ string_dec keys "f".
Proof.
  intros Hq HQ.
  destruct (frames_aim keys (run_init init) Hq HQ) as (st & Hf & Ha & Hv & Hfr).
  exists st. split; [exact Hf|]. rewrite Ha, Hv, Hfr.
  split; [|split; [|reflexivity]].
  - rewrite radians_plus. reflexivity.
  - cbn. lra.
Qed.

(** Aim, fire, aim again. *)
Lemma aim_after_keys_witness :
  exists st,
    run ["Up"; "f"; "Left"; ""; "Down"; "Down"] init = Some (true, st)
    /\ Launcher.vel (launcher (app st))
       = 40 + presses "Right" ["Up"; "f"; "Left"; ""; "Down"; "Down"]
         - presses "Left" ["Up"; "f"; "Left"; ""; "Down"; "Down"].
Proof.
  destruct (aim_after_keys ["Up"; "f"; "Left"; ""; "Down"; "Down"])
    as (st & Hf & _ & Hv & _).
  - cbn. intros H. repeat (destruct H as [H | H]; [discriminate H|]). exact H.
  - cbn. intros H. repeat (destruct H as [H | H]; [discriminate H|]). exact H.
  - exists st. split; assumption.
Defined.

Lemma frame_shots (key : string) (st st1 : run_state) (b : bool) :
  frame key st = Some (b, st1) ->
  exists extra,
    shots (app st1)
    = filter in_flight (map (seen (1 / 120)) (shots (app st))) ++ extra
    /\ (extra = []
        \/ (extra = [Launcher.fire (fresh st) (launcher (app st))]
            /\ String.eqb key "f" = true))
    /\ fresh st1 = (fresh st + List.length extra)%nat.
Proof.
  intros Hf.
  destruct (String.eqb key "q" || String.eqb key "Q") eqn:Hk.
  - destruct (frame_quit key st Hk) as (st' & Hf' & Ha & Hfr).
    rewrite Hf in Hf'. inversion Hf'; subst. exists [].
    rewrite Ha, updateShots_shots, app_nil_r, Hfr. cbn.
    split; [reflexivity|]. split; [left; reflexivity | lia].
  - destruct (frame_step key st Hk) as (st' & Hf' & Hs & Hfr & _).
    rewrite Hf in Hf'. inversion Hf'; subst.
    eexists. split; [exact Hs|]. rewrite Hfr.
    destruct (String.eqb key "f").
    + split; [right; split; reflexivity | cbn; lia].
    + split; [left; reflexivity | cbn; lia].
Qed.








Lemma frames_count (keys : list string) (st st' : run_state) (b : bool) :
  frames keys st = Some (b, st') ->
  (fresh st' <= fresh st + count_occ string_dec keys "f")%nat
  /\ (List.length (shots (app st')) + fresh st
      <= List.length (shots (app st)) + fresh st')%nat.
Proof.
  revert st. induction keys as [|key keys IH]; intros st Hf.
  - cbn in Hf. inversion Hf; subst. cbn. lia.
  - assert (Hstep : forall st1 b1,
               frame key st = Some (b1, st1) ->
               (fresh st1 <= fresh st + count_occ string_dec [key] "f")%nat
               /\ (List.length (shots (app st1)) + fresh st
                   <= List.length (shots (app st)) + fresh st1)%nat).
    { intros st1 b1 E. destruct (frame_shots key st st1 b1 E)
        as (extra & Hs & He & Hfr).
      rewrite Hs, Hfr, length_app.
      pose proof (filter_length_le in_flight
                    (map (seen (1 / 120)) (shots (app st)))) as Hl.
      rewrite length_map in Hl.
      destruct He as [E0 | [E0 Ek]]; rewrite E0; cbn [List.length count_occ].
      - lia.
      - apply String.eqb_eq in Ek. subst key.
        destruct (string_dec "f" "f"); [lia | contradiction]. }
    assert (Hc : (count_occ string_dec (key :: keys) "f"
                  = count_occ string_dec [key] "f"
                    + count_occ string_dec keys "f")%nat).
    { cbn [count_occ]. destruct (string_dec key "f"); lia. }
    cbn [frames] in Hf. destruct (frame key st) as [[[|] st1]|] eqn:E;
      [| |discriminate].
    + destruct (Hstep st1 true eq_refl) as [H1 H2].
      destruct (IH st1 Hf) as [H3 H4]. lia.
    + inversion Hf; subst. destruct (Hstep st' false eq_refl) as [H1 H2]. lia.
Qed.

(** X22.  Shots come from [f] alone: in every state that [run]
    reaches, the active collection holds no more shots than trackers
    were created, and no more trackers were created than [f] occurs
    among the keys. *)
Theorem shots_bounded_by_fires (keys : list string) (b : bool)
        (st : run_state) :
  run keys init = Some (b, st) ->
  (List.length (shots (app st)) <= fresh st)%nat
  /\ (fresh st <= count_occ string_dec keys "f")%nat.
Proof.
  intros Hrun. destruct (frames_count keys (run_init init) st b Hrun) as [H1 H2].
  cbn in H1, H2. lia.
Qed.

(** Two [f] keys and a [q]. *)
Lemma shots_bounded_by_fires_witness :
  exists b st,
    run ["f"; "f"; "q"] init = Some (b, st)
    /\ (List.length (shots (app st)) <= 2)%nat.
Proof.
  destruct (frames_defined ["f"; "f"; "q"] (run_init init)) as (b & st & Hf).
  exists b, st. split; [exact Hf|].
  destruct (shots_bounded_by_fires ["f"; "f"; "q"] b st Hf) as [H1 H2].
  cbn in H2. lia.
Defined.

End Reachable.

(** * Beyond the claims: the aim on display *)

Section Display.

Import ProjectileApp.

Lemma handle_key_display (key : string) (a : t) (id : nat) :
  display_current a -> display_current (fst (handle_key key a id)).
Proof.
  intros [Ha Hv]. unfold handle_key.
  destruct (String.eqb key "Up");
    [split; [right; reflexivity | exact Hv]|].
  destruct (String.eqb key "Down");
    [split; [right; reflexivity | exact Hv]|].
  destruct (String.eqb key "Right");
    [split; [exact Ha | right; reflexivity]|].
  destruct (String.eqb key "Left");
    [split; [exact Ha | right; reflexivity]|].
  destruct (String.eqb key "f"); split; assumption.
Qed.

Lemma frame_display (key : string) (st st1 : run_state) (b : bool) :
  display_current (app st) ->
  frame key st = Some (b, st1) ->
  display_current (app st1).
Proof.
  intros H Hf. unfold frame in Hf.
  rewrite updateShots_eq in Hf.
  destruct (fst (updateShots (1 / 120) (app st))) as [[x0 y0] v0].
  destruct (landed_test x0 y0) as [c|]; [|discriminate].
  assert (H1 : display_current
                 (mk (launcher (app st)) (initAngle (app st)) (initVel (app st))
                     (filter in_flight
                             (map (seen (1 / 120)) (shots (app st))))))
    by exact H.
  destruct (String.eqb key "q" || String.eqb key "Q").
  - inversion Hf; subst. exact H1.
  - pose proof (handle_key_display key _ (fresh st) H1) as H2.
    destruct (handle_key key _ (fresh st)) as [app2 id].
    inversion Hf; subst. exact H2.
Qed.

(** X23.  In every state that [run] reaches, the two texts at the top
    left show the aim the launcher holds: the angle in degrees and the
    velocity, unrounded until the first adjustment and rounded to one
    decimal after it. *)
Theorem display_shows_aim (keys : list string) (b : bool) (st : run_state) :
  run keys init = Some (b, st) -> display_current (app st).
Proof.
  unfold run.
  assert (H0 : display_current (app (run_init init)))
    by (split; left; reflexivity).
  revert H0. generalize (run_init init).
  induction keys as [|key keys IH]; intros st0 H0 Hf.
  - cbn in Hf. inversion Hf; subst. exact H0.
  - cbn [frames] in Hf. destruct (frame key st0) as [[[|] st1]|] eqn:E;
      [| |discriminate].
    + apply (IH st1); [|exact Hf]. apply (frame_display key st0 st1 true H0 E).
    + inversion Hf; subst. apply (frame_display key st0 st false H0 E).
Qed.

(** After one [Up] and one [Right]. *)
Lemma display_shows_aim_witness :
  exists b st,
    run ["Up"; "Right"] init = Some (b, st) /\ display_current (app st).
Proof.
  destruct (frames_defined ["Up"; "Right"] (run_init init)) as (b & st & Hf).
  exists b, st. split; [exact Hf|].
  apply (display_shows_aim ["Up"; "Right"] b st Hf).
Defined.

End Display.
